(** * AddCopyright: a shallow embedding of [add_copyright.py]

    The program walks a directory tree, selects files by extension and
    prepends a copyright notice, formatted as a comment, to each of them.

    Conventions of the embedding.
    - A Python [str] is a list of Unicode code points ([N]).
    - A file holds characters: its bytes decoded from UTF-8.  Reading
      translates the line ends (universal newlines); writing puts every
      character as it is, as on a system whose [os.linesep] is the line
      feed.
    - Paths follow [posixpath]: the separator is "/".
    - A file is known by the path that opens it; two paths to one file
      (links) are not modelled.  The directory tree the scanner walks and
      the store of file contents are separate components of the world.
    - [print] appends a structured message to an output log; the three
      answers to [input] are the argument of [main].
    - Exceptions are values of an error monad; [try ... except Exception]
      is a handler of that monad. *)

From Stdlib Require Import String Ascii NArith ZArith.
From stdpp Require Import gmap list.

Local Open Scope N_scope.
Local Open Scope list_scope.

(** ** Python strings *)

Module Str.

Abbreviation str := (list N).

(** A literal of the source, as code points. *)
Definition lit (s : string) : str :=
  List.map N_of_ascii (list_ascii_of_string s).

Definition nl : N := 10.
Definition cr : N := 13.
Definition dot : N := 46.
Definition slash : N := 47.
Definition comma : N := 44.

(** [str.isspace] on one code point: the code points Python's
    [str.strip()] removes. *)
Definition isspace (c : N) : bool :=
  ((9 <=? c) && (c <=? 13)) || ((28 <=? c) && (c <=? 32))
  || (c =? 133) || (c =? 160) || (c =? 5760)
  || ((8192 <=? c) && (c <=? 8202))
  || (c =? 8232) || (c =? 8233) || (c =? 8239) || (c =? 8287) || (c =? 12288).

(** [s.lstrip()] *)
Fixpoint lstrip (s : str) : str :=
  match s with
  | c :: s' => if isspace c then lstrip s' else s
  | [] => []
  end.

(** [s.rstrip()]: the shortest prefix of [s] followed by white space only. *)
Fixpoint rstrip (s : str) : str :=
  match s with
  | [] => []
  | c :: s' =>
      match rstrip s' with
      | [] => if isspace c then [] else [c]
      | r => c :: r
      end
  end.

(** [s.strip()] *)
Definition strip (s : str) : str := rstrip (lstrip s).

(** [s.lstrip('.')] *)
Fixpoint lstrip_dots (s : str) : str :=
  match s with
  | c :: s' => if c =? dot then lstrip_dots s' else s
  | [] => []
  end.

(** [s.split(sep)] for a separator of one character. *)
Fixpoint split (sep : N) (s : str) : list str :=
  match s with
  | [] => [[]]
  | c :: s' =>
      if c =? sep then [] :: split sep s'
      else match split sep s' with
           | l :: ls => (c :: l) :: ls
           | [] => [[c]]
           end
  end.

(** [sep.join(parts)] *)
Fixpoint join (sep : str) (parts : list str) : str :=
  match parts with
  | [] => []
  | [p] => p
  | p :: ps => p ++ sep ++ join sep ps
  end.

(** [s.startswith(p)] *)
Fixpoint startswith (s p : str) {struct p} : bool :=
  match p, s with
  | [], _ => true
  | _ :: _, [] => false
  | a :: p', c :: s' => (a =? c) && startswith s' p'
  end.

(** [m in s] *)
Fixpoint contains (m s : str) : bool :=
  startswith s m ||
  match s with
  | [] => false
  | _ :: s' => contains m s'
  end.

(** [s.lower()] on one code point.  Only the ASCII letters are mapped: the
    program uses [lower] for one test, [startswith("<!doctype")], and no
    code point outside ASCII has a lower-case form among those letters. *)
Definition lower_char (c : N) : N :=
  if (65 <=? c) && (c <=? 90) then c + 32 else c.

Definition lower (s : str) : str := lower_char <$> s.

(** [s == t] *)
Definition eqb (s t : str) : bool := bool_decide (s = t).

(** The text cut behind every line terminator: the lines, each with its
    terminator; a last line without terminator is kept as it is. *)
Fixpoint lines_of (s : str) : list str :=
  match s with
  | [] => []
  | c :: s' =>
      if c =? nl then [c] :: lines_of s'
      else match lines_of s' with
           | l :: ls => (c :: l) :: ls
           | [] => [[c]]
           end
  end.

(** What a file opened in text mode without [newline] argument hands to the
    program for the characters it holds: every line end, be it a carriage
    return and a line feed, a carriage return alone or a line feed, is a
    line feed (universal newlines). *)
Fixpoint universal_newlines (s : str) : str :=
  match s with
  | [] => []
  | c :: s' =>
      if c =? cr then
        match s' with
        | c' :: s'' =>
            if c' =? nl then nl :: universal_newlines s''
            else nl :: universal_newlines s'
        | [] => [nl]
        end
      else c :: universal_newlines s'
  end.

(** [f.readlines()] for a file that holds the characters [s]. *)
Definition readlines (s : str) : list str := lines_of (universal_newlines s).

(** [s.rfind(c)], -1 when [c] does not occur. *)
Fixpoint rfind (c : N) (s : str) : Z :=
  match s with
  | [] => (-1)%Z
  | a :: s' =>
      let r := rfind c s' in
      if (0 <=? r)%Z then (r + 1)%Z
      else if a =? c then 0%Z else (-1)%Z
  end.

(** [s[i:j]] for indices that are not negative. *)
Definition slice (i j : Z) (s : str) : str :=
  List.firstn (Z.to_nat j - Z.to_nat i) (List.skipn (Z.to_nat i) s).

End Str.

Import Str.

(** ** [os.path] (posixpath) *)

Module Path.

(** [os.path.basename(p)] *)
Definition basename (p : str) : str :=
  List.skipn (Z.to_nat (rfind slash p + 1)) p.

(** [os.path.splitext(p)]: the extension starts at the last dot of the last
    component, unless only dots precede it there. *)
Definition splitext (p : str) : str * str :=
  let sepIndex := rfind slash p in
  let dotIndex := rfind dot p in
  if (sepIndex <? dotIndex)%Z then
    if List.forallb (N.eqb dot) (slice (sepIndex + 1) dotIndex p)
    then (p, [])
    else (slice 0 dotIndex p, List.skipn (Z.to_nat dotIndex) p)
  else (p, []).

Definition endswith_sep (p : str) : bool :=
  match List.rev p with
  | c :: _ => c =? slash
  | [] => false
  end.

(** [os.path.join(a, b)] *)
Definition join (a b : str) : str :=
  if startswith b [slash] then b
  else if bool_decide (a = []) || endswith_sep a then a ++ b
  else a ++ [slash] ++ b.

End Path.


(** ** The file system and the output streams *)

(** What [open(path, 'r+', encoding='utf-8')] finds at a path that exists.
    [Text c faulty]: a file that holds the characters [c]; when [faulty], the
    device accepts [truncate] but every [write] raises [OSError]. *)
Inductive file_state :=
| Denied
| Undecodable
| Text (content : str) (faulty : bool).

(** A directory entry as [os.walk] sees it.  [Link] is a symbolic link to
    a directory: it is listed among the directories and not descended
    into.  Any other entry that is not a directory is a [File]. *)
Unset Elimination Schemes.
Inductive node :=
| File (name : str)
| Link (name : str)
| Dir (name : str) (entries : list node).
Set Elimination Schemes.

Definition node_name (t : node) : str :=
  match t with
  | File n | Link n | Dir n _ => n
  end.

Inductive exn :=
| FileNotFoundError
| PermissionError
| UnicodeDecodeError
| OSError
| SystemExit (code : Z).

(** [isinstance(e, Exception)]: [SystemExit] derives from [BaseException]
    only. *)
Definition is_Exception (e : exn) : bool :=
  match e with
  | SystemExit _ => false
  | _ => true
  end.

Inductive stream := stdout | stderr.

(** The lines the program prints, by the f-string that produces them. *)
Inductive message :=
| WarnNoStyle (extension file_path : str)
| AlreadyFound (file_path : str)
| Added (file_path : str)
| ErrorProcessing (file_path : str) (e : exn)
| Unsupported (extensions : gset str)
| SupportedAre (extensions : gset str)
| CopyrightFileNotFound (copyright_file : str)
| ErrorReadingCopyright (e : exn)
| Found (n : nat)
| Complete
| NoFiles (file_extensions_str directory_to_search : str).

Definition stream_of (m : message) : stream :=
  match m with
  | WarnNoStyle _ _ | ErrorProcessing _ _ | Unsupported _ | SupportedAre _
  | CopyrightFileNotFound _ | ErrorReadingCopyright _ => stderr
  | _ => stdout
  end.

(** The path a per-file status line is about. *)
Definition subject (m : message) : option str :=
  match m with
  | WarnNoStyle _ p | AlreadyFound p | Added p | ErrorProcessing p _ => Some p
  | _ => None
  end.

(** [files]: the files by the path that opens them; a path without entry
    does not exist.  [tree]: the directories by the path that names them (the name
    recorded in such a root node is not used).
    [out]: what has been printed, oldest line first. *)
Record world := World {
  files : gmap str file_state;
  tree : gmap str node;
  out : list message
}.

(** ** Computations that read and write the world and may raise *)

Inductive result (A : Type) :=
| Ret (a : A)
| Raise (e : exn).
Arguments Ret {A} a.
Arguments Raise {A} e.

Definition M (A : Type) : Type := world → result A * world.

#[export] Instance M_ret : MRet M := λ A a w, (Ret a, w).
#[export] Instance M_bind : MBind M := λ A B k m w,
  match m w with
  | (Ret a, w') => k a w'
  | (Raise e, w') => (Raise e, w')
  end.

Definition raise {A} (e : exn) : M A := λ w, (Raise e, w).

(** The state of the file system and of the streams, for the functions
    that only consult it. *)
Definition get_world : M world := λ w, (Ret w, w).

(** [try: body  except Exception as e: handler(e)] *)
Definition try_except {A} (body : M A) (handler : exn → M A) : M A :=
  λ w, match body w with
       | (Raise e, w') => if is_Exception e then handler e w' else (Raise e, w')
       | r => r
       end.

(** [for x in xs: body(x)] *)
Fixpoint for_each {A} (xs : list A) (body : A → M unit) : M unit :=
  match xs with
  | [] => mret tt
  | x :: xs' => body x;; for_each xs' body
  end.

Definition print (m : message) : M unit :=
  λ w, (Ret tt, World (files w) (tree w) (out w ++ [m])).

Definition set_file (p : str) (st : file_state) : M unit :=
  λ w, (Ret tt, World (<[p := st]> (files w)) (tree w) (out w)).

(** [open(file_path, mode)] for the modes ['r'] and ['r+']: neither creates
    the file.  The handle is the path. *)
Definition open (file_path : str) : M str :=
  λ w, match files w !! file_path with
       | None => (Raise FileNotFoundError, w)
       | Some Denied => (Raise PermissionError, w)
       | Some _ => (Ret file_path, w)
       end.

(** [f.read()]: the characters of the file, every line end (a carriage
    return with a line feed, or a carriage return alone) given as a line
    feed. *)
Definition f_read (f : str) : M str :=
  λ w, match files w !! f with
       | Some (Text c _) => (Ret (universal_newlines c), w)
       | Some Undecodable => (Raise UnicodeDecodeError, w)
       | _ => (Raise OSError, w)
       end.

(** [f.readlines()] *)
Definition f_readlines (f : str) : M (list str) :=
  c ← f_read f; mret (lines_of c).

(** [f.seek(0); f.truncate()]: the file is emptied and the position, which
    the handle does not record, is the end of the file from here on. *)
Definition f_seek0_truncate (f : str) : M unit :=
  λ w, match files w !! f with
       | Some (Text _ faulty) => set_file f (Text [] faulty) w
       | _ => (Raise OSError, w)
       end.

(** [f.write(s)] at the end of the file: the characters of [s] as they
    are; a carriage return among them is a line end for the next reader. *)
Definition f_write (f : str) (s : str) : M unit :=
  λ w, match files w !! f with
       | Some (Text c false) => set_file f (Text (c ++ s) false) w
       | _ => (Raise OSError, w)
       end.

(** [f.writelines(lines)] *)
Definition f_writelines (f : str) (lines : list str) : M unit :=
  for_each lines (f_write f).

(** ** The program *)

Definition SUPPORTED_EXTENSIONS : gset str :=
  list_to_set (lit <$> [
    "py"; "java"; "js"; "ts"; "c"; "cpp"; "h"; "hpp"; "cs"; "go"; "rs";
    "html"; "css"; "scss"; "sh"; "rb"; "php"; "yml"
  ]%string).

Definition COMMENT_MAP : gmap str (str * str) :=
  list_to_map [
    (lit "c", (lit "/*", lit " */")); (lit "cpp", (lit "/*", lit " */"));
    (lit "h", (lit "/*", lit " */")); (lit "hpp", (lit "/*", lit " */"));
    (lit "java", (lit "/*", lit " */")); (lit "js", (lit "/*", lit " */"));
    (lit "ts", (lit "/*", lit " */")); (lit "cs", (lit "/*", lit " */"));
    (lit "go", (lit "/*", lit " */")); (lit "rs", (lit "/*", lit " */"));
    (lit "css", (lit "/*", lit " */")); (lit "scss", (lit "/*", lit " */"));
    (lit "php", (lit "/*", lit " */"));
    (lit "py", (lit "#", lit "")); (lit "sh", (lit "#", lit ""));
    (lit "rb", (lit "#", lit "")); (lit "yml", (lit "#", lit ""));
    (lit "html", (lit "<!--", lit " -->"))
  ].

(** *** [prepend_copyright] *)

(** The extension [prepend_copyright] looks up (lines 42-47). *)
Definition extension_of (file_path : str) : str :=
  let filename := Path.basename file_path in
  let extension := lstrip_dots (Path.splitext file_path).2 in
  if eqb filename (lit "Dockerfile") then lit "dockerfile" else extension.

(** [copyright_text.strip().split('\n')] (line 54). *)
Definition copyright_lines (copyright_text : str) : list str :=
  split nl (strip copyright_text).

(** The list [notice] (lines 57-62). *)
Definition notice (start_marker end_marker copyright_text : str) : list str :=
  if negb (bool_decide (end_marker = [])) then
    [start_marker]
    ++ ((λ line, rstrip (lit " * " ++ line)) <$> copyright_lines copyright_text)
    ++ [lit " " ++ end_marker]
  else
    (λ line, rstrip (start_marker ++ lit " " ++ line))
      <$> copyright_lines copyright_text.

(** [formatted_notice] (line 63). *)
Definition formatted_notice (start_marker end_marker copyright_text : str) : str :=
  join [nl] (notice start_marker end_marker copyright_text) ++ [nl].

(** The duplicate guard (line 68). *)
Definition already_has_notice (original_content : list str) : bool :=
  List.existsb (contains (lit "Copyright (c)")) (take 20 original_content).

(** The test on the first line (lines 77-78). *)
Definition is_special (extension line1 : str) : bool :=
  startswith line1 (lit "#!")
  || startswith (strip line1) (lit "<?php")
  || (eqb extension (lit "html") && startswith (lower line1) (lit "<!doctype")).

(** [first_line] and [content_to_prepend_to] (lines 73-80). *)
Definition special_first_line (extension : str) (original_content : list str)
  : str * list str :=
  match original_content with
  | line1 :: rest =>
      if is_special extension line1 then (line1, rest) else ([], original_content)
  | [] => ([], original_content)
  end.

(** The body of the [try] (lines 42-92). *)
Definition prepend_copyright_body
    (file_path copyright_text : str) (comment_map : gmap str (str * str)) : M unit :=
  let extension := extension_of file_path in
  match comment_map !! extension with
  | None => print (WarnNoStyle extension file_path)
  | Some (start_marker, end_marker) =>
      let formatted := formatted_notice start_marker end_marker copyright_text in
      f ← open file_path;
      original_content ← f_readlines f;
      if already_has_notice original_content then
        print (AlreadyFound file_path)
      else
        let '(first_line, content_to_prepend_to) :=
          special_first_line extension original_content in
        f_seek0_truncate f;;
        (if negb (bool_decide (first_line = [])) then f_write f first_line
         else mret tt);;
        f_write f formatted;;
        (if negb (bool_decide (content_to_prepend_to = [])) then
           f_write f [nl];; f_writelines f content_to_prepend_to
         else mret tt);;
        print (Added file_path)
  end.

Definition prepend_copyright
    (file_path copyright_text : str) (comment_map : gmap str (str * str)) : M unit :=
  try_except (prepend_copyright_body file_path copyright_text comment_map)
             (λ e, print (ErrorProcessing file_path e)).

(** *** [os.walk] and [find_files_by_extensions] *)

(** [entry.is_dir()] *)
Definition is_dir (t : node) : bool :=
  match t with
  | File _ => false
  | _ => true
  end.

Definition dirs_of (es : list node) : list str :=
  node_name <$> filter (λ t, is_dir t) es.
Definition nondirs_of (es : list node) : list str :=
  node_name <$> filter (λ t, ¬ is_dir t) es.

(** [for dirpath, dirnames, filenames in os.walk(top, topdown=True): body].
    The loop body receives the triple together with the loop's state and
    hands back the list [dirnames] as it has left it: [os.walk] descends
    into the names of that list, in its order, resolving each one again in
    the directory; a name that is a link or no directory is passed over. *)
Fixpoint walk {S : Type}
    (body : str → list str → list str → S → list str * S)
    (top : str) (t : node) (s : S) {struct t} : S :=
  match t with
  | Dir _ es =>
      let '(dirnames, s1) := body top (dirs_of es) (nondirs_of es) s in
      foldl
        (λ s dirname,
           (fix descend (l : list node) : S :=
              match l with
              | [] => s
              | c :: l' =>
                  if eqb (node_name c) dirname then
                    match c with
                    | Dir _ _ => walk body (Path.join top dirname) c s
                    | _ => s
                    end
                  else descend l'
              end) es)
        s1 dirnames
  | _ => s
  end.

(** [os.path.isdir(root_dir)] *)
Definition isdir (w : world) (root_dir : str) : bool :=
  match tree w !! root_dir with
  | Some (Dir _ _) => true
  | _ => false
  end.

(** [{ext.strip() for ext in s.split(",")}] *)
Definition parse_extensions (s : str) : gset str :=
  list_to_set (strip <$> split comma s).

(** The loop over [filenames] (lines 124-133). *)
Definition scan_filenames (extensions : gset str) (dirpath : str)
    (filenames matching_files : list str) : list str :=
  foldl
    (λ matching_files filename,
       if bool_decide (lit "dockerfile" ∈ extensions) && eqb filename (lit "Dockerfile")
       then matching_files ++ [Path.join dirpath filename]
       else
         let file_ext := lstrip_dots (Path.splitext filename).2 in
         if bool_decide (file_ext ∈ extensions)
         then matching_files ++ [Path.join dirpath filename]
         else matching_files)
    matching_files filenames.

(** The body of the loop over [os.walk] (lines 120-133): it prunes
    [dirnames] in place and scans [filenames]. *)
Definition scan_body (extensions excluded_dirs : gset str)
    (dirpath : str) (dirnames filenames matching_files : list str)
  : list str * list str :=
  (filter (λ d, d ∉ excluded_dirs) dirnames,
   scan_filenames extensions dirpath filenames matching_files).

Definition find_files_by_extensions (w : world)
    (root_dir extensions_str : str) (excluded_dirs : option (gset str)) : list str :=
  let matching_files := [] in
  if negb (isdir w root_dir) then matching_files
  else
    let excluded_dirs := default ∅ excluded_dirs in
    let extensions := parse_extensions extensions_str in
    match tree w !! root_dir with
    | Some t => walk (scan_body extensions excluded_dirs) root_dir t matching_files
    | None => matching_files
    end.

(** *** The main program *)

Record inputs := Inputs {
  directory_to_search : str;
  file_extensions_str : str;
  excluded_dirs_str : str
}.

(** [{d.strip() for d in s.split(',') if d.strip()}] *)
Definition parse_excluded (s : str) : gset str :=
  list_to_set (filter (λ d, d ≠ []) (strip <$> split comma s)).

Definition copyright_file : str := lit "copyright.txt".

(** Lines 157-165. *)
Definition read_copyright_file : M str :=
  λ w, match (f ← open copyright_file; f_read f) w with
       | (Raise FileNotFoundError, w') =>
           (print (CopyrightFileNotFound copyright_file);; raise (SystemExit 1)) w'
       | (Raise e, w') =>
           if is_Exception e
           then (print (ErrorReadingCopyright e);; raise (SystemExit 1)) w'
           else (Raise e, w')
       | r => r
       end.

Definition main (i : inputs) : M unit :=
  let excluded_dirs := parse_excluded (excluded_dirs_str i) in
  let user_extensions := parse_extensions (file_extensions_str i) in
  let unsupported_extensions := user_extensions ∖ SUPPORTED_EXTENSIONS in
  if negb (bool_decide (unsupported_extensions = ∅)) then
    print (Unsupported unsupported_extensions);;
    print (SupportedAre SUPPORTED_EXTENSIONS);;
    raise (SystemExit 1)
  else
    copyright_text ← read_copyright_file;
    w ← get_world;
    let found_files :=
      find_files_by_extensions w (directory_to_search i) (file_extensions_str i)
                               (Some excluded_dirs) in
    if negb (bool_decide (found_files = [])) then
      print (Found (length found_files));;
      for_each found_files (λ file_path,
        prepend_copyright file_path copyright_text COMMENT_MAP);;
      print Complete
    else
      print (NoFiles (file_extensions_str i) (directory_to_search i)).

(** The exit status of the process. *)
Definition exit_status {A} (r : result A) : Z :=
  match r with
  | Ret _ => 0
  | Raise (SystemExit code) => code
  | Raise _ => 1
  end.

(** ** Notions of the statements *)

(** The number of line terminators in a text. *)
Definition count_nl (s : str) : nat := length (filter (λ c, c = nl) s).

(** The text a successful insertion leaves in the file (lines 82-90). *)
Definition rewritten (extension start_marker end_marker copyright_text c : str) : str :=
  let '(first_line, content_to_prepend_to) :=
    special_first_line extension (readlines c) in
  first_line
  ++ formatted_notice start_marker end_marker copyright_text
  ++ match content_to_prepend_to with
     | [] => []
     | _ => nl :: concat content_to_prepend_to
     end.

(** The format as the specification words it.  [core] is [text] without
    the white space at its two ends. *)
Definition stripped_of (text core : str) : Prop :=
  ∃ a b, text = a ++ core ++ b
         ∧ Forall (λ c, isspace c = true) a
         ∧ Forall (λ c, isspace c = true) b
         ∧ (∀ c, head core = Some c → isspace c = false)
         ∧ (∀ c, last core = Some c → isspace c = false).

(** [lines] are the lines of [core]: no line holds a line terminator, and
    the lines, each closed by one, make up [core] and a closing
    terminator. *)
Definition lines_are (core : str) (lines : list str) : Prop :=
  Forall (λ l, nl ∉ l) lines
  ∧ concat ((λ l, l ++ [nl]) <$> lines) = core ++ [nl].

(** [t] is [x] with its trailing white space trimmed. *)
Definition trimmed_of (x t : str) : Prop :=
  ∃ ws, x = t ++ ws
        ∧ Forall (λ c, isspace c = true) ws
        ∧ (∀ c, last t = Some c → isspace c = false).

(** Lines written one after the other, each with its terminator. *)
Definition written (lines : list str) : str :=
  concat ((λ l, l ++ [nl]) <$> lines).

(** The literal the duplicate guard looks for. *)
Definition marker : str := lit "Copyright (c)".

(** The entry a name of [dirnames] resolves to. *)
Definition child (es : list node) (dirname : str) : option node :=
  List.find (λ c, eqb (node_name c) dirname) es.

(** The test a file name passes to be collected (lines 126 and 131-132). *)
Definition matches (extensions : gset str) (filename : str) : Prop :=
  (lit "dockerfile" ∈ extensions ∧ filename = lit "Dockerfile")
  ∨ lstrip_dots (Path.splitext filename).2 ∈ extensions.

(** The path [os.walk] forms for the directory reached from [root_dir]
    through the directories [dirs]. *)
Definition chain_path (root_dir : str) (dirs : list str) : str :=
  foldl Path.join root_dir dirs.

(** A name as a file system allows it: not empty and without separator. *)
Definition name_ok (n : str) : bool :=
  negb (bool_decide (n = [])) && forallb (λ c, negb (c =? slash)) n.

Fixpoint names_ok (t : node) : bool :=
  name_ok (node_name t)
  && match t with
     | Dir _ es => forallb names_ok es
     | _ => true
     end.

(** The names below a root; the root's own name plays no part. *)
Definition entries_ok (t : node) : bool :=
  match t with
  | Dir _ es => forallb names_ok es
  | _ => true
  end.

(** [file_at t dirs f]: below the directory [t], the chain of directories
    [dirs] leads to a directory that holds the file [f]. *)
Inductive file_at : node → list str → str → Prop :=
| file_here n es f :
    File f ∈ es → file_at (Dir n es) [] f
| file_below n es d es' ds f :
    Dir d es' ∈ es → file_at (Dir d es') ds f → file_at (Dir n es) (d :: ds) f.

(** What precedes the first name: the root and, unless the root is empty
    or ends in one, a separator. *)
Definition root_prefix (root_dir : str) : str :=
  if bool_decide (root_dir = []) || Path.endswith_sep root_dir
  then root_dir else root_dir ++ [slash].

(** [reaches t dirs t']: from the directory [t] the walk goes down through
    the names [dirs], none of them excluded, each resolved in its
    directory, and arrives at [t']. *)
Inductive reaches (excluded_dirs : gset str) : node → list str → node → Prop :=
| reaches_here t : reaches excluded_dirs t [] t
| reaches_below n es d d' es' ds t' :
    child es d = Some (Dir d' es') → d ∉ excluded_dirs →
    reaches excluded_dirs (Dir d' es') ds t' →
    reaches excluded_dirs (Dir n es) (d :: ds) t'.

(** A path the scanner may hold: a file below the root, reached through
    directories none of which is excluded. *)
Definition collected (excluded_dirs : gset str) (root_dir p : str) : Prop :=
  ∃ dirs f,
    p = Path.join (chain_path root_dir dirs) f
    ∧ Forall (λ d, d ∉ excluded_dirs) dirs
    ∧ Forall (λ d, name_ok d = true) dirs
    ∧ name_ok f = true.

(** A text that is not empty and does not end in white space. *)
Definition ends_nonspace (s : str) : bool :=
  match last s with
  | Some c => negb (isspace c)
  | None => false
  end.

(** No directory holds two entries of the same name. *)
Fixpoint names_unique (t : node) : bool :=
  match t with
  | Dir _ es => bool_decide (NoDup (node_name <$> es)) && forallb names_unique es
  | _ => true
  end.

(** The extension the scanner tests a file name with (line 131). *)
Definition file_ext (filename : str) : str :=
  lstrip_dots (Path.splitext filename).2.

(** What one call of [prepend_copyright] does to the state of its file. *)
Definition file_step (file_path copyright_text : str)
    (comment_map : gmap str (str * str)) (st : file_state) : file_state :=
  match comment_map !! extension_of file_path, st with
  | Some (s, e), Text c faulty =>
      if already_has_notice (readlines c) then st
      else if faulty then Text [] true
      else Text (rewritten (extension_of file_path) s e copyright_text c) false
  | _, _ => st
  end.

(** What the loop over [found_files] does to the files. *)
Definition batch_files (copyright_text : str) (comment_map : gmap str (str * str))
    (found_files : list str) (fs : gmap str file_state) : gmap str file_state :=
  foldl (λ fs file_path,
           alter (file_step file_path copyright_text comment_map) file_path fs)
        fs found_files.

(** [found_at t p]: [p] is the path of a file with a requested extension in
    a directory that the walk reaches from [t]. *)
Definition found_at (extensions excluded_dirs : gset str) (t : node)
    (root_dir p : str) : Prop :=
  ∃ dirs n es f,
    reaches excluded_dirs t dirs (Dir n es)
    ∧ f ∈ nondirs_of es
    ∧ matches extensions f
    ∧ p = Path.join (chain_path root_dir dirs) f.

(** ** Sample inputs *)

Definition sample_notice : str :=
  lit "Copyright (c) 2024 Example Corp." ++ [nl] ++ lit "All rights reserved." ++ [nl].

Definition sample_tree : node :=
  Dir (lit "proj") [
    File (lit "main.py");
    File (lit "Dockerfile");
    Dir (lit "venv") [File (lit "site.py"); Dir (lit "lib") [File (lit "os.py")]];
    Dir (lit "src") [File (lit "app.js"); Dir (lit "venv") [File (lit "x.py")];
                     File (lit "run.sh")];
    File (lit "old.py");
    File (lit "locked.py");
    File (lit "blob.py");
    File (lit "full.py");
    Link (lit "latest")
  ].

Definition sample_world : world :=
  World {[ lit "proj/main.py" := Text (lit "print(1)" ++ [nl]) false;
           lit "proj/Dockerfile" := Text (lit "FROM scratch" ++ [nl]) false;
           lit "proj/venv/site.py" := Text (lit "import os" ++ [nl]) false;
           lit "proj/venv/lib/os.py" := Text (lit "pass" ++ [nl]) false;
           lit "proj/src/app.js" := Text (lit "let x = 1;") false;
           lit "proj/src/venv/x.py" := Text (lit "x = 1" ++ [nl]) false;
           lit "proj/src/run.sh" := Text (lit "#!/bin/sh" ++ [nl] ++ lit "ls" ++ [nl]) false;
           lit "proj/old.py" := Text (lit "# Copyright (c) 1999" ++ [nl]) false;
           lit "proj/locked.py" := Denied;
           lit "proj/blob.py" := Undecodable;
           lit "proj/full.py" := Text (lit "x" ++ [nl]) true;
           lit "copyright.txt" := Text sample_notice false ]}
        {[ lit "proj" := sample_tree ]}
        [].

(** * Properties *)

(** ** The library functions on samples *)

Example split_ex : split comma (lit "py, js,") = [lit "py"; lit " js"; lit ""].
Proof. reflexivity. Qed.

Example readlines_ex :
  readlines (lit "a" ++ [nl] ++ [nl] ++ lit "b") = [lit "a" ++ [nl]; [nl]; lit "b"].
Proof. reflexivity. Qed.

Example strip_ex : strip (lit "  a b  ") = lit "a b".
Proof. reflexivity. Qed.

Example splitext_ex1 : Path.splitext (lit "src/a.b.py") = (lit "src/a.b", lit ".py").
Proof. reflexivity. Qed.

Example splitext_ex2 : Path.splitext (lit "src.d/.bashrc") = (lit "src.d/.bashrc", lit "").
Proof. reflexivity. Qed.

Example basename_ex : Path.basename (lit "a/b/Dockerfile") = lit "Dockerfile".
Proof. reflexivity. Qed.

Example join_ex : Path.join (lit "a/") (lit "b") = lit "a/b" /\ Path.join (lit "a") (lit "b") = lit "a/b".
Proof. split; reflexivity. Qed.

(** ** Strings *)

Section StringFacts.

Implicit Types (s p m l : str) (c : N).

Lemma startswith_spec s p : startswith s p = true ↔ ∃ b, s = p ++ b.
Proof.
  revert s. induction p as [|a p IH]; intros s; simpl.
  - split; [by exists s | done].
  - destruct s as [|c s].
    + split; [done | intros [b Hb]; discriminate].
    + rewrite andb_true_iff, N.eqb_eq, IH. split.
      * intros [-> [b ->]]. eauto.
      * intros [b Hb]. injection Hb as -> ->. eauto.
Qed.

Lemma contains_spec m s : contains m s = true ↔ ∃ a b, s = a ++ m ++ b.
Proof.
  induction s as [|c s IH]; simpl.
  - rewrite orb_false_r, startswith_spec. split.
    + intros [b Hb]. exists [], b. done.
    + intros (a & b & Hab). destruct a; [eauto|discriminate].
  - rewrite orb_true_iff, startswith_spec, IH. split.
    + intros [[b Hb] | (a & b & ->)].
      * exists [], b. done.
      * exists (c :: a), b. done.
    + intros (a & b & Hab). destruct a as [|c' a].
      * left. eauto.
      * right. injection Hab as -> ->. eauto.
Qed.

Lemma contains_app_l m s t : contains m s = true → contains m (s ++ t) = true.
Proof.
  rewrite !contains_spec. intros (a & b & ->).
  exists a, (b ++ t). by rewrite <- !app_assoc.
Qed.

Lemma contains_app_r m s t : contains m t = true → contains m (s ++ t) = true.
Proof.
  rewrite !contains_spec. intros (a & b & ->).
  exists (s ++ a), b. by rewrite <- !app_assoc.
Qed.

(** [rstrip] removes a suffix of white space and nothing more. *)
Lemma rstrip_spec s :
  ∃ ws, s = rstrip s ++ ws ∧ forallb isspace ws = true
        ∧ (∀ c, last (rstrip s) = Some c → isspace c = false).
Proof.
  induction s as [|c s (ws & Hs & Hws & Hlast)]; simpl.
  - exists []. done.
  - destruct (rstrip s) as [|r rs] eqn:Hr.
    + destruct (isspace c) eqn:Hc.
      * exists (c :: ws). simpl in *. rewrite Hc, Hws. by subst.
      * exists ws. simpl in *. split_and!; [by subst | done |].
        intros c' [= <-]. done.
    + exists ws. split_and!; [simpl; f_equal; exact Hs | done | exact Hlast].
Qed.

Lemma rstrip_cons_nonspace c s : isspace c = false → ∃ r, rstrip (c :: s) = c :: r.
Proof. intros Hc. simpl. destruct (rstrip s); rewrite ?Hc; eauto. Qed.

Lemma rstrip_app s t : rstrip t ≠ [] → rstrip (s ++ t) = s ++ rstrip t.
Proof.
  intros Ht. induction s as [|c s IH]; simpl; [done|].
  rewrite IH. destruct (s ++ rstrip t) eqn:E; [|done].
  apply app_eq_nil in E as [_ E]. done.
Qed.

(** Trimming keeps an occurrence of a marker that ends in a character
    which is not white space. *)
Lemma contains_rstrip m c s :
  isspace c = false →
  contains (m ++ [c]) s = true → contains (m ++ [c]) (rstrip s) = true.
Proof.
  intros Hc. rewrite !contains_spec. intros (a & b & ->).
  destruct (rstrip_cons_nonspace c b Hc) as [r Hr].
  exists a, r.
  replace (a ++ (m ++ [c]) ++ b) with ((a ++ m) ++ (c :: b))
    by (by rewrite <- !app_assoc).
  rewrite rstrip_app by (by rewrite Hr).
  rewrite Hr. by rewrite <- !app_assoc.
Qed.

Lemma rstrip_sub s x : x ∈ rstrip s → x ∈ s.
Proof.
  destruct (rstrip_spec s) as (ws & Hs & _). intros Hin.
  rewrite Hs. apply elem_of_app. by left.
Qed.

Lemma rstrip_no_nl s : nl ∉ s → nl ∉ rstrip s.
Proof. intros Hn Hin. by apply Hn, rstrip_sub. Qed.

Lemma lstrip_sub s x : x ∈ lstrip s → x ∈ s.
Proof.
  induction s as [|c s IH]; simpl; [done|].
  destruct (isspace c); [|done]. intros Hin. right. auto.
Qed.

Lemma strip_sub s x : x ∈ strip s → x ∈ s.
Proof. intros Hin. by apply lstrip_sub, rstrip_sub. Qed.

Lemma split_sub sep s : Forall (λ l, ∀ x, x ∈ l → x ∈ s) (split sep s).
Proof.
  induction s as [|c s IH]; simpl.
  - constructor; [done | constructor].
  - assert (Hs : Forall (λ l, ∀ x, x ∈ l → x ∈ c :: s) (split sep s)).
    { eapply Forall_impl; [exact IH|]. intros l Hl x Hx. right. auto. }
    destruct (c =? sep).
    + constructor; [|done]. intros x Hx. by apply elem_of_nil in Hx.
    + destruct (split sep s) as [|l ls].
      * constructor; [|constructor].
        intros x Hx%list_elem_of_singleton. subst. by left.
      * apply Forall_cons in Hs as [_ Hls]. apply Forall_cons in IH as [Hl _].
        constructor; [|done].
        intros x [->|Hx]%elem_of_cons; [by left | right; auto].
Qed.

End StringFacts.

(** ** Lines *)

Section LineFacts.

Implicit Types (s l m : str) (ls : list str).

Lemma count_nl_app s t : count_nl (s ++ t) = (count_nl s + count_nl t)%nat.
Proof. unfold count_nl. by rewrite filter_app, length_app. Qed.

Lemma count_nl_free s : nl ∉ s → count_nl s = 0%nat.
Proof.
  unfold count_nl. induction s as [|c s IH]; [done|].
  rewrite not_elem_of_cons. intros [Hc Hs].
  rewrite filter_cons_False by congruence. auto.
Qed.

Lemma split_no_sep sep s : Forall (λ l, sep ∉ l) (split sep s).
Proof.
  induction s as [|c s IH]; simpl.
  - repeat constructor. apply not_elem_of_nil.
  - destruct (N.eqb_spec c sep) as [->|Hc].
    + constructor; [apply not_elem_of_nil | done].
    + destruct (split sep s) as [|l ls].
      * repeat constructor. rewrite not_elem_of_cons.
        split; [congruence | apply not_elem_of_nil].
      * inversion IH; subst. constructor; [|done].
        rewrite not_elem_of_cons. split; [congruence | done].
Qed.

Lemma split_nonempty sep s : split sep s ≠ [].
Proof.
  destruct s as [|c s]; simpl; [done|].
  destruct (c =? sep); [done|]. by destruct (split sep s).
Qed.

(** A line and its terminator in front of a text are read as that line. *)
Lemma lines_of_line l s :
  nl ∉ l → lines_of (l ++ nl :: s) = (l ++ [nl]) :: lines_of s.
Proof.
  induction l as [|c l IH]; simpl; [done|].
  rewrite not_elem_of_cons. intros [Hc Hl].
  destruct (N.eqb_spec c nl) as [|_]; [congruence|]. by rewrite IH.
Qed.

(** No line that [lines_of] yields has more than one terminator. *)
Lemma lines_of_count s : Forall (λ l, (count_nl l ≤ 1)%nat) (lines_of s).
Proof.
  induction s as [|c s IH]; simpl; [constructor|].
  destruct (N.eqb_spec c nl) as [->|Hc].
  - constructor; [|done]. unfold count_nl. rewrite filter_cons_True by done.
    simpl. lia.
  - destruct (lines_of s) as [|l ls].
    + repeat constructor. unfold count_nl. rewrite filter_cons_False by done.
      simpl. lia.
    + inversion IH; subst. constructor; [|done].
      unfold count_nl in *. by rewrite filter_cons_False.
Qed.

(** A marker inside a complete line is found in the line whose index is
    the number of terminators before it. *)
Lemma lines_of_hit m pre l post :
  nl ∉ l → contains m l = true →
  ∃ line, lines_of (pre ++ l ++ nl :: post) !! count_nl pre = Some line
          ∧ contains m line = true.
Proof.
  intros Hl Hm. induction pre as [|c pre (line & Hline & Hc)].
  - simpl. rewrite lines_of_line by done. exists (l ++ [nl]).
    split; [done | by apply contains_app_l].
  - simpl. unfold count_nl in *.
    destruct (N.eqb_spec c nl) as [->|Hcn].
    + rewrite filter_cons_True by done. simpl. eauto.
    + rewrite filter_cons_False by done.
      destruct (lines_of (pre ++ l ++ nl :: post)) as [|l0 ls]; [done|].
      destruct (length (filter (λ c, c = nl) pre)) as [|k]; simpl in *.
      * injection Hline as <-. exists (c :: l0). split; [done|].
        by apply (contains_app_r m [c]).
      * eauto.
Qed.

(** Joining with the terminator and closing the last line is the same as
    closing every line. *)
Lemma join_nl ls :
  ls ≠ [] → join [nl] ls ++ [nl] = concat ((λ l, l ++ [nl]) <$> ls).
Proof.
  induction ls as [|l ls IH]; [done|]. intros _.
  destruct ls as [|l' ls]; simpl in *.
  - by rewrite app_nil_r.
  - rewrite <- IH by done. by rewrite <- !app_assoc.
Qed.

Lemma count_nl_lines ls :
  Forall (λ l, nl ∉ l) ls →
  count_nl (concat ((λ l, l ++ [nl]) <$> ls)) = length ls.
Proof.
  induction 1 as [|l ls Hl _ IH]; [done|].
  rewrite fmap_cons. simpl concat.
  rewrite !count_nl_app, IH, count_nl_free by done. done.
Qed.

(** [lines_of] cuts the text and loses nothing. *)
Lemma concat_lines_of s : concat (lines_of s) = s.
Proof.
  induction s as [|c s IH]; simpl; [done|].
  destruct (c =? nl); simpl; [by rewrite IH|].
  destruct (lines_of s) as [|l ls]; simpl in *; by rewrite <- IH.
Qed.

Lemma lines_of_nonempty s : Forall (λ l, l ≠ []) (lines_of s).
Proof.
  induction s as [|c s IH]; simpl; [constructor|].
  destruct (c =? nl); [by constructor|].
  destruct (lines_of s) as [|l ls]; [by repeat constructor|].
  inversion IH; subst. by constructor.
Qed.

(** The lines after the first are the lines of the text after the first
    line. *)
Lemma lines_of_tail s l ls : lines_of s = l :: ls → lines_of (concat ls) = ls.
Proof.
  revert l ls. induction s as [|c s IH]; intros l ls; simpl; [done|].
  destruct (c =? nl).
  - intros [= <- <-]. by rewrite concat_lines_of.
  - destruct (lines_of s) as [|l0 ls0]; intros [= <- <-]; [done|]. by eapply IH.
Qed.

(** *** Universal newlines *)

(** Induction along the way [universal_newlines] reads a text. *)
Lemma newline_ind (P : str → Prop) :
  P [] → P [cr] →
  (∀ s, P s → P (cr :: nl :: s)) →
  (∀ c s, c ≠ nl → P (c :: s) → P (cr :: c :: s)) →
  (∀ c s, c ≠ cr → P s → P (c :: s)) →
  ∀ s, P s.
Proof.
  intros Hnil Hcr Hcrlf Hlone Hother s.
  assert (H : ∀ n s, (length s ≤ n)%nat → P s); [|by apply (H (length s))].
  clear s. induction n as [|n IH]; intros s Hlen.
  - destruct s; [done | simpl in Hlen; lia].
  - destruct s as [|c s]; [done|]. simpl in Hlen.
    destruct (decide (c = cr)) as [->|Hc]; [|apply Hother; [done | apply IH; lia]].
    destruct s as [|c' s]; [done|]. simpl in Hlen.
    destruct (decide (c' = nl)) as [->|Hc'].
    + apply Hcrlf, IH. lia.
    + apply Hlone; [done|]. apply IH. simpl. lia.
Qed.

Lemma universal_newlines_crlf s :
  universal_newlines (cr :: nl :: s) = nl :: universal_newlines s.
Proof. done. Qed.

Lemma universal_newlines_lone c s :
  c ≠ nl → universal_newlines (cr :: c :: s) = nl :: universal_newlines (c :: s).
Proof.
  intros Hc. cbn [universal_newlines]. rewrite N.eqb_refl.
  by destruct (N.eqb_spec c nl).
Qed.

Lemma universal_newlines_other c s :
  c ≠ cr → universal_newlines (c :: s) = c :: universal_newlines s.
Proof. intros Hc. cbn [universal_newlines]. by destruct (N.eqb_spec c cr). Qed.

(** The text the program reads holds no carriage return. *)
Lemma universal_newlines_no_cr s : cr ∉ universal_newlines s.
Proof.
  induction s as [| |s IH|c s Hc IH|c s Hc IH] using newline_ind.
  - apply not_elem_of_nil.
  - by intros [?|?%elem_of_nil]%elem_of_cons.
  - rewrite universal_newlines_crlf, not_elem_of_cons. done.
  - rewrite universal_newlines_lone, not_elem_of_cons by done. done.
  - rewrite universal_newlines_other, not_elem_of_cons by done. done.
Qed.

(** A text without carriage return is read as it is. *)
Lemma universal_newlines_id s : cr ∉ s → universal_newlines s = s.
Proof.
  induction s as [|c s IH]; [done|]. rewrite not_elem_of_cons. intros [Hc Hs].
  rewrite universal_newlines_other by done. by rewrite IH.
Qed.

Lemma universal_newlines_app pre post :
  last pre = Some nl →
  universal_newlines (pre ++ post) = universal_newlines pre ++ universal_newlines post
  ∧ last (universal_newlines pre) = Some nl.
Proof.
  induction pre as [| |s IH|c s Hc IH|c s Hc IH] using newline_ind; intros Hlast.
  - done.
  - done.
  - destruct s as [|c s].
    + done.
    + change (last (cr :: nl :: c :: s)) with (last (c :: s)) in Hlast.
      destruct (IH Hlast) as [IH1 IH2].
      change ((cr :: nl :: c :: s) ++ post) with (cr :: nl :: (c :: s) ++ post).
      rewrite !universal_newlines_crlf, IH1. split; [done|].
      rewrite last_cons, IH2. done.
  - change (last (cr :: c :: s)) with (last (c :: s)) in Hlast.
    destruct (IH Hlast) as [IH1 IH2].
    change ((cr :: c :: s) ++ post) with (cr :: c :: s ++ post).
    rewrite !universal_newlines_lone by done.
    change (c :: s ++ post) with ((c :: s) ++ post). rewrite IH1. split; [done|].
    rewrite last_cons, IH2. done.
  - destruct s as [|c' s].
    + injection Hlast as ->. rewrite !universal_newlines_other by done. done.
    + change (last (c :: c' :: s)) with (last (c' :: s)) in Hlast.
      destruct (IH Hlast) as [IH1 IH2].
      change ((c :: c' :: s) ++ post) with (c :: (c' :: s) ++ post).
      rewrite !universal_newlines_other by done. rewrite IH1. split; [done|].
      rewrite last_cons, IH2. done.
Qed.

(** *** The lines the program reads *)

Lemma readlines_count s : Forall (λ l, (count_nl l ≤ 1)%nat) (readlines s).
Proof. apply lines_of_count. Qed.

(** [readlines] loses nothing but the form of the line ends. *)
Lemma concat_readlines s : concat (readlines s) = universal_newlines s.
Proof. apply concat_lines_of. Qed.

Lemma readlines_tail s l ls : readlines s = l :: ls → lines_of (concat ls) = ls.
Proof. apply lines_of_tail. Qed.

Lemma readlines_no_cr s : Forall (λ l, cr ∉ l) (readlines s).
Proof.
  apply Forall_forall. intros l Hl Hcr.
  apply (universal_newlines_no_cr s). rewrite <- concat_readlines.
  apply list_elem_of_In, in_concat. exists l. by rewrite <- !list_elem_of_In.
Qed.

Lemma readlines_id s : cr ∉ s → readlines s = lines_of s.
Proof. intros H. unfold readlines. by rewrite universal_newlines_id. Qed.

End LineFacts.

(** ** Running the file operations *)

Section FileOps.

Implicit Types (fs : gmap str file_state) (t : gmap str node) (o : list message).

Lemma bind_run {A B} (m : M A) (k : A → M B) w :
  (m ≫= k) w = match m w with
               | (Ret a, w') => k a w'
               | (Raise e, w') => (Raise e, w')
               end.
Proof. done. Qed.

Lemma f_write_ok f s c fs t o :
  fs !! f = Some (Text c false) →
  f_write f s (World fs t o) = (Ret tt, World (<[f := Text (c ++ s) false]> fs) t o).
Proof. intros H. unfold f_write. simpl. by rewrite H. Qed.

Lemma f_write_faulty f s c fs t o :
  fs !! f = Some (Text c true) →
  f_write f s (World fs t o) = (Raise OSError, World fs t o).
Proof. intros H. unfold f_write. simpl. by rewrite H. Qed.

Lemma f_writelines_ok f ls c fs t o :
  fs !! f = Some (Text c false) →
  f_writelines f ls (World fs t o)
  = (Ret tt, World (<[f := Text (c ++ concat ls) false]> fs) t o).
Proof.
  unfold f_writelines. revert c fs.
  induction ls as [|l ls IH]; intros c fs H; simpl.
  - rewrite app_nil_r, insert_id by done. done.
  - rewrite bind_run, (f_write_ok _ _ c) by done.
    rewrite (IH (c ++ l)) by apply lookup_insert_eq.
    by rewrite insert_insert_eq, <- app_assoc.
Qed.

Lemma f_seek0_truncate_ok f c b fs t o :
  fs !! f = Some (Text c b) →
  f_seek0_truncate f (World fs t o) = (Ret tt, World (<[f := Text [] b]> fs) t o).
Proof. intros H. unfold f_seek0_truncate. simpl. by rewrite H. Qed.

Lemma f_readlines_ok f c b fs t o :
  fs !! f = Some (Text c b) →
  f_readlines f (World fs t o) = (Ret (readlines c), World fs t o).
Proof. intros H. unfold f_readlines. rewrite bind_run. unfold f_read. simpl. by rewrite H. Qed.

End FileOps.

(** ** The outcomes of [prepend_copyright] *)

Section Outcomes.

Variables (file_path copyright_text : str) (comment_map : gmap str (str * str)).
Variable w : world.

Local Abbreviation extension := (extension_of file_path).
Local Abbreviation run := (prepend_copyright file_path copyright_text comment_map w).
Local Abbreviation says m := (World (files w) (tree w) (out w ++ [m])).
Local Abbreviation leaves st m :=
  (World (<[file_path := st]> (files w)) (tree w) (out w ++ [m])).

Lemma run_no_style :
  comment_map !! extension = None →
  run = (Ret tt, says (WarnNoStyle extension file_path)).
Proof.
  intros H. unfold prepend_copyright, try_except, prepend_copyright_body.
  by rewrite H.
Qed.

Lemma run_missing se :
  comment_map !! extension = Some se → files w !! file_path = None →
  run = (Ret tt, says (ErrorProcessing file_path FileNotFoundError)).
Proof.
  intros H Hf. unfold prepend_copyright, try_except, prepend_copyright_body.
  rewrite H. destruct se as [s e].
  rewrite bind_run. unfold open. by rewrite Hf.
Qed.

Lemma run_denied se :
  comment_map !! extension = Some se → files w !! file_path = Some Denied →
  run = (Ret tt, says (ErrorProcessing file_path PermissionError)).
Proof.
  intros H Hf. unfold prepend_copyright, try_except, prepend_copyright_body.
  rewrite H. destruct se as [s e].
  rewrite bind_run. unfold open. by rewrite Hf.
Qed.

Lemma run_undecodable se :
  comment_map !! extension = Some se → files w !! file_path = Some Undecodable →
  run = (Ret tt, says (ErrorProcessing file_path UnicodeDecodeError)).
Proof.
  intros H Hf. unfold prepend_copyright, try_except, prepend_copyright_body.
  rewrite H. destruct se as [s e].
  rewrite bind_run. unfold open. rewrite Hf.
  rewrite bind_run. unfold f_readlines. rewrite bind_run. unfold f_read. by rewrite Hf.
Qed.

Lemma run_already se c b :
  comment_map !! extension = Some se → files w !! file_path = Some (Text c b) →
  already_has_notice (readlines c) = true →
  run = (Ret tt, says (AlreadyFound file_path)).
Proof.
  intros H Hf Ha. unfold prepend_copyright, try_except, prepend_copyright_body.
  rewrite H. destruct se as [s e].
  rewrite bind_run. unfold open. rewrite Hf.
  destruct w as [fs t o]. simpl in Hf.
  rewrite bind_run, (f_readlines_ok _ c b) by done. by rewrite Ha.
Qed.

Lemma run_faulty se c :
  comment_map !! extension = Some se → files w !! file_path = Some (Text c true) →
  already_has_notice (readlines c) = false →
  run = (Ret tt, leaves (Text [] true) (ErrorProcessing file_path OSError)).
Proof.
  intros H Hf Ha. unfold prepend_copyright, try_except, prepend_copyright_body.
  rewrite H. destruct se as [s e].
  rewrite bind_run. unfold open. rewrite Hf.
  destruct w as [fs t o]. simpl in Hf.
  rewrite bind_run, (f_readlines_ok _ c true) by done. rewrite Ha.
  destruct (special_first_line _ _) as [first_line rest].
  rewrite bind_run, (f_seek0_truncate_ok _ c true) by done.
  rewrite bind_run.
  destruct (negb (bool_decide (first_line = []))).
  - by rewrite (f_write_faulty _ _ []) by apply lookup_insert_eq.
  - unfold mret at 1, M_ret at 1.
    rewrite bind_run. by rewrite (f_write_faulty _ _ []) by apply lookup_insert_eq.
Qed.

Lemma run_insert s e c :
  comment_map !! extension = Some (s, e) →
  files w !! file_path = Some (Text c false) →
  already_has_notice (readlines c) = false →
  run = (Ret tt, leaves (Text (rewritten extension s e copyright_text c) false)
                        (Added file_path)).
Proof.
  intros H Hf Ha. unfold prepend_copyright, try_except, prepend_copyright_body.
  rewrite H.
  rewrite bind_run. unfold open. rewrite Hf.
  destruct w as [fs t o]. simpl in Hf.
  rewrite bind_run, (f_readlines_ok _ c false) by done. rewrite Ha.
  unfold rewritten.
  destruct (special_first_line _ _) as [first_line rest].
  rewrite bind_run, (f_seek0_truncate_ok _ c false) by done.
  rewrite bind_run.
  assert (Hfirst :
    (if negb (bool_decide (first_line = [])) then f_write file_path first_line
     else mret tt) (World (<[file_path := Text [] false]> fs) t o)
    = (Ret tt, World (<[file_path := Text first_line false]> fs) t o)).
  { case_bool_decide as Hfl; simpl.
    - by subst.
    - rewrite (f_write_ok _ _ []) by apply lookup_insert_eq.
      by rewrite insert_insert_eq. }
  rewrite Hfirst. clear Hfirst.
  rewrite bind_run, (f_write_ok _ _ first_line) by apply lookup_insert_eq.
  rewrite insert_insert_eq, bind_run.
  destruct rest as [|r rest]; simpl.
  - by rewrite app_nil_r.
  - rewrite bind_run, (f_write_ok _ _ (first_line ++ formatted_notice s e copyright_text))
      by apply lookup_insert_eq.
    rewrite insert_insert_eq.
    rewrite (f_writelines_ok _ _ ((first_line ++ formatted_notice s e copyright_text) ++ [nl]))
      by apply lookup_insert_eq.
    rewrite insert_insert_eq. unfold print. simpl.
    do 3 f_equal. by rewrite <- !app_assoc.
Qed.

End Outcomes.

(** ** The skip branches write nothing *)

(** C10: on either skip branch of [prepend_copyright] (no style for the
    extension, or "Copyright (c)" within the first 20 lines) the call
    returns normally, prints the one line of that branch and leaves every
    file as it was. *)
Theorem skip_writes_nothing file_path copyright_text comment_map w :
  comment_map !! extension_of file_path = None
  ∨ (∃ c b, files w !! file_path = Some (Text c b)
            ∧ already_has_notice (readlines c) = true) →
  ∃ m, prepend_copyright file_path copyright_text comment_map w
       = (Ret tt, World (files w) (tree w) (out w ++ [m]))
       ∧ (m = WarnNoStyle (extension_of file_path) file_path
          ∨ m = AlreadyFound file_path).
Proof.
  intros [Hnone | (c & b & Hf & Ha)].
  - eexists. split; [by apply run_no_style | by left].
  - destruct (comment_map !! extension_of file_path) as [se|] eqn:Hs.
    + eexists. split; [by eapply run_already | by right].
    + eexists. split; [by apply run_no_style | by left].
Qed.

Lemma skip_writes_nothing_witness :
  ∃ m, prepend_copyright (lit "proj/old.py") sample_notice COMMENT_MAP sample_world
       = (Ret tt, World (files sample_world) (tree sample_world)
                        (out sample_world ++ [m]))
       ∧ (m = WarnNoStyle (extension_of (lit "proj/old.py")) (lit "proj/old.py")
          ∨ m = AlreadyFound (lit "proj/old.py")).
Proof.
  apply (skip_writes_nothing (lit "proj/old.py") sample_notice COMMENT_MAP sample_world).
  right. exists (lit "# Copyright (c) 1999" ++ [nl]), false.
  split; vm_compute; reflexivity.
Defined.

(** ** The scanner on a root that is no directory *)

(** C5: when the root is not an existing directory the scanner returns the
    empty list, whatever the extensions and the excluded names. *)
Theorem not_a_directory_gives_nothing w root_dir extensions_str excluded_dirs :
  isdir w root_dir = false →
  find_files_by_extensions w root_dir extensions_str excluded_dirs = [].
Proof. intros H. unfold find_files_by_extensions. by rewrite H. Qed.

Lemma not_a_directory_gives_nothing_witness :
  find_files_by_extensions sample_world (lit "proj/main.py") (lit "py")
                           (Some {[lit "venv"]}) = [].
Proof.
  apply (not_a_directory_gives_nothing sample_world (lit "proj/main.py")).
  vm_compute. reflexivity.
Defined.

(** ** Validation of the requested extensions *)

Lemma main_unsupported i w ext :
  ext ∈ parse_extensions (file_extensions_str i) → ext ∉ SUPPORTED_EXTENSIONS →
  main i w
  = (Raise (SystemExit 1),
     World (files w) (tree w)
           (out w ++ [Unsupported (parse_extensions (file_extensions_str i)
                                   ∖ SUPPORTED_EXTENSIONS);
                      SupportedAre SUPPORTED_EXTENSIONS])).
Proof.
  intros Hin Hnot.
  assert (Hne : parse_extensions (file_extensions_str i) ∖ SUPPORTED_EXTENSIONS ≠ ∅).
  { intros He. assert (ext ∈ (∅ : gset str)) as []%not_elem_of_empty.
    rewrite <- He. by apply elem_of_difference. }
  unfold main. rewrite bool_decide_eq_false_2 by done. simpl.
  rewrite bind_run. unfold print at 1. cbn iota beta.
  rewrite bind_run. unfold print, raise. cbn [files tree out].
  by rewrite <- app_assoc.
Qed.

(** C3: when some requested extension is outside [SUPPORTED_EXTENSIONS] the
    run prints its two error lines and exits with status 1; no file has
    been touched. *)
Theorem unsupported_extension_aborts i w :
  (∃ ext, ext ∈ parse_extensions (file_extensions_str i)
          ∧ ext ∉ SUPPORTED_EXTENSIONS) →
  main i w
  = (Raise (SystemExit 1),
     World (files w) (tree w)
           (out w ++ [Unsupported (parse_extensions (file_extensions_str i)
                                   ∖ SUPPORTED_EXTENSIONS);
                      SupportedAre SUPPORTED_EXTENSIONS]))
  ∧ exit_status (main i w).1 = 1%Z
  ∧ files (main i w).2 = files w.
Proof.
  intros (ext & Hin & Hnot).
  pose proof (main_unsupported i w ext Hin Hnot) as Hrun.
  split_and!; [done | by rewrite Hrun | by rewrite Hrun].
Qed.

Lemma unsupported_extension_aborts_witness :
  exit_status (main (Inputs (lit "proj") (lit "py,exe") (lit "venv")) sample_world).1 = 1%Z.
Proof.
  apply (unsupported_extension_aborts
           (Inputs (lit "proj") (lit "py,exe") (lit "venv")) sample_world).
  exists (lit "exe"). split.
  - apply (bool_decide_unpack _). vm_compute. exact I.
  - apply (bool_decide_unpack _). vm_compute. exact I.
Defined.

(** ** The format of the notice *)

Lemma notice_nonempty s e text : notice s e text ≠ [].
Proof.
  unfold notice. destruct (negb _); [done|].
  unfold copyright_lines. pose proof (split_nonempty nl (strip text)).
  by destruct (split nl (strip text)).
Qed.

Lemma lstrip_spec s :
  ∃ a, s = a ++ lstrip s
       ∧ Forall (λ c, isspace c = true) a
       ∧ (∀ c, head (lstrip s) = Some c → isspace c = false).
Proof.
  induction s as [|c s (a & Hs & Ha & Hhead)].
  - exists []. done.
  - simpl. destruct (isspace c) eqn:Hc.
    + exists (c :: a). split_and!; [simpl; by f_equal | by constructor | done].
    + exists []. split_and!; [done | constructor |]. by intros c' [= <-].
Qed.

Lemma strip_spec text : stripped_of text (strip text).
Proof.
  unfold strip. destruct (lstrip_spec text) as (a & Ha & Hwa & Hhead).
  destruct (rstrip_spec (lstrip text)) as (b & Hb & Hwb & Hlast).
  exists a, b. split_and!.
  - by rewrite <- Hb.
  - done.
  - apply Forall_forall. intros c Hc. rewrite forallb_forall in Hwb.
    by apply Hwb, list_elem_of_In.
  - intros c Hc. apply Hhead. rewrite Hb.
    by destruct (rstrip (lstrip text)).
  - done.
Qed.

Lemma trimmed_rstrip x : trimmed_of x (rstrip x).
Proof.
  destruct (rstrip_spec x) as (ws & Hx & Hws & Hlast).
  exists ws. split_and!; [done | | done].
  apply Forall_forall. intros c Hc. rewrite forallb_forall in Hws.
  by apply Hws, list_elem_of_In.
Qed.

Lemma join_split s : join [nl] (split nl s) = s.
Proof.
  induction s as [|c s IH]; [done|]. simpl.
  pose proof (split_nonempty nl s) as Hne.
  destruct (c =? nl) eqn:Hc.
  - apply N.eqb_eq in Hc as ->.
    destruct (split nl s) as [|l ls]; [done|]. simpl in *. by rewrite IH.
  - destruct (split nl s) as [|l ls]; [done|].
    destruct ls; simpl in *; by rewrite <- IH.
Qed.

Lemma split_lines_are core : lines_are core (split nl core).
Proof.
  split; [apply split_no_sep|].
  rewrite <- join_nl by apply split_nonempty. by rewrite join_split.
Qed.

(** C6: for every notice text and every extension that has a style in the
    table: the notice lines are the lines of the text without the white
    space at its two ends; for a style with an end marker the formatted
    notice is the line of the start marker, then every notice line behind
    " * " with its trailing white space trimmed, then the closing line (a
    space and the end marker); for a style without end marker it is every
    notice line behind the start marker and a space, with its trailing
    white space trimmed. *)
Theorem formatted_notice_layout copyright_text extension start_marker end_marker :
  COMMENT_MAP !! extension = Some (start_marker, end_marker) →
  ∃ core lines,
    stripped_of copyright_text core
    ∧ lines_are core lines
    ∧ (end_marker ≠ [] →
       ∃ body,
         Forall2 (λ line t, trimmed_of (lit " * " ++ line) t) lines body
         ∧ formatted_notice start_marker end_marker copyright_text
           = written ([start_marker] ++ body ++ [lit " " ++ end_marker]))
    ∧ (end_marker = [] →
       ∃ body,
         Forall2 (λ line t, trimmed_of (start_marker ++ lit " " ++ line) t) lines body
         ∧ formatted_notice start_marker end_marker copyright_text = written body).
Proof.
  intros _. exists (strip copyright_text), (copyright_lines copyright_text).
  split_and!; [apply strip_spec | apply split_lines_are | |].
  - intros He.
    exists ((λ line, rstrip (lit " * " ++ line)) <$> copyright_lines copyright_text).
    split.
    + apply Forall2_fmap_r, Forall_Forall2_diag, Forall_forall.
      intros l _. apply trimmed_rstrip.
    + unfold formatted_notice, written.
      rewrite join_nl by apply notice_nonempty.
      unfold notice. by rewrite bool_decide_eq_false_2 by done.
  - intros He.
    exists ((λ line, rstrip (start_marker ++ lit " " ++ line))
              <$> copyright_lines copyright_text).
    split.
    + apply Forall2_fmap_r, Forall_Forall2_diag, Forall_forall.
      intros l _. apply trimmed_rstrip.
    + unfold formatted_notice, written.
      rewrite join_nl by apply notice_nonempty.
      unfold notice. by rewrite bool_decide_eq_true_2 by done.
Qed.

Lemma formatted_notice_layout_witness :
  let text := lit "  Copyright (c) 2024 X  " ++ [nl] ++ [nl] ++ lit "All rights  " ++ [nl] in
  ∃ core lines,
    stripped_of text core
    ∧ lines_are core lines
    ∧ (lit " */" ≠ [] →
       ∃ body,
         Forall2 (λ line t, trimmed_of (lit " * " ++ line) t) lines body
         ∧ formatted_notice (lit "/*") (lit " */") text
           = written ([lit "/*"] ++ body ++ [lit " " ++ lit " */"]))
    ∧ (lit " */" = [] →
       ∃ body,
         Forall2 (λ line t, trimmed_of (lit "/*" ++ lit " " ++ line) t) lines body
         ∧ formatted_notice (lit "/*") (lit " */") text = written body).
Proof.
  intros text. apply (formatted_notice_layout text (lit "js") (lit "/*") (lit " */")).
  vm_compute. reflexivity.
Defined.

Example formatted_notice_trimmed :
  formatted_notice (lit "/*") (lit " */")
    (lit "  Copyright (c) 2024 X  " ++ [nl] ++ [nl] ++ lit "All rights  " ++ [nl])
  = lit "/*" ++ [nl] ++ lit " * Copyright (c) 2024 X" ++ [nl] ++ lit " *" ++ [nl]
    ++ lit " * All rights" ++ [nl] ++ lit "  */" ++ [nl].
Proof. vm_compute. reflexivity. Qed.

Example formatted_notice_js :
  formatted_notice (lit "/*") (lit " */") sample_notice
  = lit "/*" ++ [nl] ++ lit " * Copyright (c) 2024 Example Corp." ++ [nl]
    ++ lit " * All rights reserved." ++ [nl] ++ lit "  */" ++ [nl].
Proof. vm_compute. reflexivity. Qed.

Example formatted_notice_py :
  formatted_notice (lit "#") (lit "") (lit "  A  " ++ [nl] ++ [nl] ++ lit "B" ++ [nl])
  = lit "# A" ++ [nl] ++ lit "#" ++ [nl] ++ lit "# B" ++ [nl].
Proof. vm_compute. reflexivity. Qed.

(** ** The layout of the rewritten file *)

(** C7 as stated fails: what remains of a file whose lines end in a
    carriage return and a line feed is not written back as it was; every
    line end is written as a line feed. *)
Lemma line_ends_are_not_kept :
  let c := lit "a" ++ [cr; nl] ++ lit "b" ++ [cr; nl] in
  let w := World {[ lit "x.py" := Text c false ]} ∅ [] in
  let w' := (prepend_copyright (lit "x.py") sample_notice COMMENT_MAP w).2 in
  let c' := lit "# Copyright (c) 2024 Example Corp." ++ [nl]
            ++ lit "# All rights reserved." ++ [nl]
            ++ [nl]
            ++ lit "a" ++ [nl] ++ lit "b" ++ [nl] in
  already_has_notice (readlines c) = false
  ∧ files w' !! lit "x.py" = Some (Text c' false)
  ∧ ∀ before, c' ≠ before ++ c.
Proof.
  split_and!; [vm_compute; reflexivity | vm_compute; reflexivity |].
  intros before Heq.
  assert (Hin : cr ∈ before ++ lit "a" ++ [cr; nl] ++ lit "b" ++ [cr; nl]).
  { apply elem_of_app. right. apply elem_of_app. right. by left. }
  rewrite <- Heq in Hin. revert Hin. apply (bool_decide_unpack _).
  vm_compute. exact I.
Qed.

(** C7, amended: after an insertion the file holds the special first line
    (a first line that starts with "#!", or after stripping with "<?php",
    or, for the extension html, without regard to case with "<!doctype"),
    if there is one, then the formatted notice and then, when content
    remains, one blank line and that content as the program has read it:
    as it was but for the line ends, which are line feeds, so as it was
    when the file holds no carriage return; when nothing remains, nothing
    follows the notice. *)
Theorem insertion_layout file_path copyright_text comment_map w s e c :
  comment_map !! extension_of file_path = Some (s, e) →
  files w !! file_path = Some (Text c false) →
  already_has_notice (readlines c) = false →
  ∃ first_line remaining w',
    universal_newlines c = first_line ++ remaining
    ∧ (cr ∉ c → c = first_line ++ remaining)
    ∧ match readlines c with
      | line1 :: _ =>
          if startswith line1 (lit "#!")
             || startswith (strip line1) (lit "<?php")
             || (bool_decide (extension_of file_path = lit "html")
                 && startswith (lower line1) (lit "<!doctype"))
          then first_line = line1
          else first_line = []
      | [] => first_line = []
      end
    ∧ prepend_copyright file_path copyright_text comment_map w = (Ret tt, w')
    ∧ (remaining ≠ [] →
       files w' !! file_path
       = Some (Text (first_line ++ formatted_notice s e copyright_text
                     ++ [nl] ++ remaining) false))
    ∧ (remaining = [] →
       files w' !! file_path
       = Some (Text (first_line ++ formatted_notice s e copyright_text) false)).
Proof.
  intros Hs Hf Ha.
  pose proof (run_insert file_path copyright_text comment_map w s e c Hs Hf Ha) as Hrun.
  unfold rewritten in Hrun.
  pose proof (concat_readlines c) as Hcat.
  pose proof (lines_of_nonempty (universal_newlines c)) as Hne.
  fold (readlines c) in Hne.
  unfold special_first_line, is_special, eqb in Hrun.
  assert (Hshape : ∀ first_line rest,
    universal_newlines c = first_line ++ concat rest →
    Forall (λ l, l ≠ []) rest →
    prepend_copyright file_path copyright_text comment_map w
    = (Ret tt,
       World (<[file_path :=
                  Text (first_line ++ formatted_notice s e copyright_text
                        ++ match rest with
                           | [] => []
                           | _ :: _ => nl :: concat rest
                           end) false]> (files w))
             (tree w) (out w ++ [Added file_path])) →
    ∃ remaining w',
      universal_newlines c = first_line ++ remaining
      ∧ (cr ∉ c → c = first_line ++ remaining)
      ∧ prepend_copyright file_path copyright_text comment_map w = (Ret tt, w')
      ∧ (remaining ≠ [] →
         files w' !! file_path
         = Some (Text (first_line ++ formatted_notice s e copyright_text
                       ++ [nl] ++ remaining) false))
      ∧ (remaining = [] →
         files w' !! file_path
         = Some (Text (first_line ++ formatted_notice s e copyright_text) false))).
  { intros first_line rest Hc Hrest Hr. exists (concat rest). eexists.
    split_and!; [done | | exact Hr | |].
    - intros Hcr. by rewrite <- Hc, universal_newlines_id.
    - intros Hrem. cbn [files]. rewrite lookup_insert_eq. by destruct rest.
    - intros Hrem. cbn [files]. rewrite lookup_insert_eq.
      destruct rest as [|r rest]; [by rewrite app_nil_r|].
      inversion Hrest; subst. by destruct r. }
  destruct (readlines c) as [|line1 rest] eqn:Hl.
  - destruct (Hshape [] []) as (remaining & w' & G1 & G2 & G3 & G4 & G5);
      [by rewrite <- Hcat | constructor | exact Hrun |].
    by exists [], remaining, w'.
  - apply Forall_cons in Hne as [Hne1 Hne2].
    destruct (startswith line1 (lit "#!")
              || startswith (strip line1) (lit "<?php")
              || (bool_decide (extension_of file_path = lit "html")
                  && startswith (lower line1) (lit "<!doctype"))).
    + destruct (Hshape line1 rest) as (remaining & w' & G1 & G2 & G3 & G4 & G5);
        [by rewrite <- Hcat | done | exact Hrun |].
      by exists line1, remaining, w'.
    + destruct (Hshape [] (line1 :: rest)) as (remaining & w' & G1 & G2 & G3 & G4 & G5);
        [by rewrite <- Hcat | by constructor | exact Hrun |].
      by exists [], remaining, w'.
Qed.

Lemma insertion_layout_witness :
  let c := lit "#!/bin/sh" ++ [nl] in
  let w := World {[ lit "run.sh" := Text c false ]} ∅ [] in
  ∃ first_line remaining w',
    universal_newlines c = first_line ++ remaining
    ∧ (cr ∉ c → c = first_line ++ remaining)
    ∧ match readlines c with
      | line1 :: _ =>
          if startswith line1 (lit "#!")
             || startswith (strip line1) (lit "<?php")
             || (bool_decide (extension_of (lit "run.sh") = lit "html")
                 && startswith (lower line1) (lit "<!doctype"))
          then first_line = line1
          else first_line = []
      | [] => first_line = []
      end
    ∧ prepend_copyright (lit "run.sh") sample_notice COMMENT_MAP w = (Ret tt, w')
    ∧ (remaining ≠ [] →
       files w' !! lit "run.sh"
       = Some (Text (first_line ++ formatted_notice (lit "#") [] sample_notice
                     ++ [nl] ++ remaining) false))
    ∧ (remaining = [] →
       files w' !! lit "run.sh"
       = Some (Text (first_line ++ formatted_notice (lit "#") [] sample_notice) false)).
Proof.
  intros c w.
  apply (insertion_layout (lit "run.sh") sample_notice COMMENT_MAP w (lit "#") [] c).
  - vm_compute. reflexivity.
  - vm_compute. reflexivity.
  - vm_compute. reflexivity.
Defined.

Example insertion_nonempty :
  files (prepend_copyright (lit "proj/main.py") sample_notice COMMENT_MAP sample_world).2
    !! lit "proj/main.py"
  = Some (Text (lit "# Copyright (c) 2024 Example Corp." ++ [nl]
                ++ lit "# All rights reserved." ++ [nl]
                ++ [nl]
                ++ lit "print(1)" ++ [nl]) false).
Proof. vm_compute. reflexivity. Qed.

Example insertion_after_shebang_only :
  files (prepend_copyright (lit "run.sh") sample_notice COMMENT_MAP
           (World {[ lit "run.sh" := Text (lit "#!/bin/sh" ++ [nl]) false ]} ∅ [])).2
    !! lit "run.sh"
  = Some (Text (lit "#!/bin/sh" ++ [nl]
                ++ lit "# Copyright (c) 2024 Example Corp." ++ [nl]
                ++ lit "# All rights reserved." ++ [nl]) false).
Proof. vm_compute. reflexivity. Qed.

Example insertion_after_doctype :
  files (prepend_copyright (lit "i.html") sample_notice COMMENT_MAP
           (World {[ lit "i.html" :=
                       Text (lit "<!DOCTYPE html>" ++ [cr; nl] ++ lit "<p>" ++ [cr; nl]) false ]}
                  ∅ [])).2
    !! lit "i.html"
  = Some (Text (lit "<!DOCTYPE html>" ++ [nl]
                ++ lit "<!--" ++ [nl]
                ++ lit " * Copyright (c) 2024 Example Corp." ++ [nl]
                ++ lit " * All rights reserved." ++ [nl]
                ++ lit "  -->" ++ [nl]
                ++ [nl]
                ++ lit "<p>" ++ [nl]) false).
Proof. vm_compute. reflexivity. Qed.

(** ** The special first line *)

(** A special first line that ends in a terminator stays the first line of
    the rewritten file, and the notice begins on the next line; without a
    special first line the notice begins the file. *)
Lemma special_line_kept extension s e copyright_text c :
  match readlines c with
  | line1 :: rest =>
      if is_special extension line1 then
        ∀ l, line1 = l ++ [nl] →
          readlines (rewritten extension s e copyright_text c)
          = line1 :: readlines (formatted_notice s e copyright_text
                                ++ match rest with
                                   | [] => []
                                   | _ => nl :: concat rest
                                   end)
      else ∃ tail, rewritten extension s e copyright_text c
                   = formatted_notice s e copyright_text ++ tail
  | [] => rewritten extension s e copyright_text c = formatted_notice s e copyright_text
  end.
Proof.
  unfold rewritten, special_first_line.
  pose proof (readlines_count c) as Hcount.
  pose proof (readlines_no_cr c) as Hcr.
  destruct (readlines c) as [|line1 rest]; [by rewrite app_nil_r|].
  destruct (is_special extension line1); [|by eexists].
  intros l ->. apply Forall_cons in Hcr as [Hcr _].
  unfold readlines at 1.
  destruct (universal_newlines_app (l ++ [nl])
              (formatted_notice s e copyright_text
               ++ match rest with [] => [] | _ => nl :: concat rest end)) as [-> _];
    [by rewrite last_snoc|].
  rewrite (universal_newlines_id (l ++ [nl])) by done.
  rewrite <- app_assoc. simpl.
  apply lines_of_line. inversion Hcount as [|? ? H1 _]; subst.
  rewrite count_nl_app in H1. intros Hin.
  assert (count_nl l ≠ 0)%nat; [|unfold count_nl in *; simpl in *; lia].
  unfold count_nl. intros Hz%length_zero_iff_nil.
  exact (filter_nil_not_elem_of (λ c, c = nl) l nl Hz eq_refl Hin).
Qed.

(** C8, at the input where it fails: a file that consists of a shebang
    line without line terminator.  The notice is written onto the end of
    that line, so the first line of the file is no longer the shebang line
    and the notice does not begin on the line after it. *)
Theorem unterminated_shebang_is_glued :
  let c := lit "#!/usr/bin/env python" in
  let w := World {[ lit "tool.py" := Text c false ]} ∅ [] in
  let w' := (prepend_copyright (lit "tool.py") sample_notice COMMENT_MAP w).2 in
  is_special (extension_of (lit "tool.py")) c = true
  ∧ files w' !! lit "tool.py"
    = Some (Text (lit "#!/usr/bin/env python# Copyright (c) 2024 Example Corp." ++ [nl]
                  ++ lit "# All rights reserved." ++ [nl]) false)
  ∧ out w' = [Added (lit "tool.py")]
  ∧ head (readlines (lit "#!/usr/bin/env python# Copyright (c) 2024 Example Corp." ++ [nl]
                     ++ lit "# All rights reserved." ++ [nl]))
    ≠ head (readlines c).
Proof. vm_compute. split_and!; [done | done | done | discriminate]. Qed.

(** ** Running the insertion twice *)

Lemma COMMENT_MAP_no_nl extension s e :
  COMMENT_MAP !! extension = Some (s, e) → (nl ∉ s) ∧ (nl ∉ e).
Proof.
  intros H.
  assert (Hall : map_Forall (λ _ se, (nl ∉ se.1) ∧ (nl ∉ se.2)) COMMENT_MAP).
  { apply (bool_decide_unpack _). vm_compute. exact I. }
  exact (Hall _ _ H).
Qed.

Lemma COMMENT_MAP_no_cr extension s e :
  COMMENT_MAP !! extension = Some (s, e) → (cr ∉ s) ∧ (cr ∉ e).
Proof.
  intros H.
  assert (Hall : map_Forall (λ _ se, (cr ∉ se.1) ∧ (cr ∉ se.2)) COMMENT_MAP).
  { apply (bool_decide_unpack _). vm_compute. exact I. }
  exact (Hall _ _ H).
Qed.

(** A notice made of a text and of markers without carriage return is
    written and read back as it is, and so is the whole rewritten file. *)
Lemma formatted_notice_no_cr s e copyright_text :
  cr ∉ s → cr ∉ e → cr ∉ copyright_text →
  cr ∉ formatted_notice s e copyright_text.
Proof.
  intros Hs He Ht.
  assert (Hlines : Forall (λ l, cr ∉ l) (copyright_lines copyright_text)).
  { eapply Forall_impl; [apply split_sub|]. intros l Hl Hin.
    by apply Ht, strip_sub, Hl. }
  assert (Hsp : cr ∉ lit " ") by (by apply (bool_decide_unpack _)).
  assert (Hst : cr ∉ lit " * ") by (by apply (bool_decide_unpack _)).
  assert (Hno : Forall (λ l, cr ∉ l) (notice s e copyright_text)).
  { unfold notice. destruct (negb _).
    - rewrite !Forall_app, Forall_fmap. split_and!.
      + by repeat constructor.
      + eapply Forall_impl; [exact Hlines|]. intros l Hl Hin. cbv beta in *.
        apply rstrip_sub, elem_of_app in Hin. tauto.
      + repeat constructor. rewrite elem_of_app. tauto.
    - rewrite Forall_fmap. eapply Forall_impl; [exact Hlines|]. intros l Hl Hin.
      cbv beta in *. apply rstrip_sub in Hin. rewrite !elem_of_app in Hin. tauto. }
  unfold formatted_notice. rewrite join_nl by apply notice_nonempty.
  intros Hin. apply list_elem_of_In, in_concat in Hin as (l & Hl & Hin).
  apply list_elem_of_In, list_elem_of_fmap in Hl as (l' & -> & Hl').
  apply list_elem_of_In, elem_of_app in Hin as [Hin|Hin].
  - by apply (proj1 (Forall_forall _ _) Hno l').
  - by apply list_elem_of_singleton in Hin.
Qed.

Lemma rewritten_no_cr extension s e copyright_text c :
  cr ∉ s → cr ∉ e → cr ∉ copyright_text →
  cr ∉ rewritten extension s e copyright_text c.
Proof.
  intros Hs He Ht.
  pose proof (formatted_notice_no_cr s e copyright_text Hs He Ht) as Hn.
  pose proof (universal_newlines_no_cr c) as Hc.
  rewrite <- concat_readlines in Hc.
  unfold rewritten, special_first_line.
  destruct (readlines c) as [|line1 rest]; [by rewrite app_nil_r|].
  destruct (is_special extension line1).
  - simpl in Hc. rewrite !elem_of_app in *.
    destruct rest; [rewrite elem_of_nil; tauto|].
    rewrite elem_of_cons. intros [?|[?|[?|?]]]; [tauto | tauto | done | tauto].
  - rewrite app_nil_l, elem_of_app, elem_of_cons.
    intros [?|[?|?]]; [tauto | done | tauto].
Qed.

Section SecondRun.

Variables (s e copyright_text : str).
Hypothesis s_no_nl : nl ∉ s.
Hypothesis e_no_nl : nl ∉ e.
Hypothesis s_no_cr : cr ∉ s.
Hypothesis e_no_cr : cr ∉ e.
Hypothesis text_no_cr : cr ∉ copyright_text.
Hypothesis marked :
  existsb (contains marker) (take 18 (copyright_lines copyright_text)) = true.

Lemma notice_no_nl : Forall (λ l, nl ∉ l) (notice s e copyright_text).
Proof.
  pose proof (split_no_sep nl (strip copyright_text)) as Hsplit.
  unfold notice, copyright_lines.
  assert (Hsp : nl ∉ lit " ") by (by apply (bool_decide_unpack _)).
  assert (Hst : nl ∉ lit " * ") by (by apply (bool_decide_unpack _)).
  destruct (negb _).
  - rewrite !Forall_app, Forall_fmap. split_and!.
    + by repeat constructor.
    + eapply Forall_impl; [exact Hsplit|]. intros l Hl. cbv beta in *.
      apply rstrip_no_nl. rewrite elem_of_app. tauto.
    + repeat constructor. rewrite elem_of_app. tauto.
  - rewrite Forall_fmap. eapply Forall_impl; [exact Hsplit|]. intros l Hl.
    cbv beta in *. apply rstrip_no_nl. rewrite !elem_of_app. tauto.
Qed.

(** The marked line of the text is among the first 19 lines of the
    notice. *)
Lemma notice_hit :
  ∃ j x, (j ≤ 18)%nat ∧ notice s e copyright_text !! j = Some x
         ∧ contains marker x = true.
Proof.
  apply existsb_exists in marked as (l & Hin & Hl).
  apply list_elem_of_In, list_elem_of_lookup in Hin as [i Hi].
  apply lookup_take_Some in Hi as [Hi Hlt].
  assert (Hkeep : ∀ pre, contains marker (rstrip (pre ++ l)) = true).
  { intros pre. change marker with (lit "Copyright (c" ++ [41]).
    apply contains_rstrip; [done|]. by apply contains_app_r. }
  unfold notice. destruct (negb _).
  - exists (S i), (rstrip (lit " * " ++ l)). split_and!; [lia | | apply Hkeep].
    change (S i) with (length [s] + i)%nat.
    rewrite lookup_app_r by (simpl; lia).
    replace (length [s] + i - length [s])%nat with i by (simpl; lia).
    apply lookup_app_l_Some. by rewrite list_lookup_fmap, Hi.
  - exists i, (rstrip (s ++ lit " " ++ l)). split_and!; [lia | |].
    + by rewrite list_lookup_fmap, Hi.
    + rewrite app_assoc. apply Hkeep.
Qed.

(** Whatever text precedes the notice on at most one line, the duplicate
    guard finds the marker in what has been written. *)
Lemma guard_finds_notice first_line tail :
  (count_nl first_line ≤ 1)%nat →
  already_has_notice
    (lines_of (first_line ++ formatted_notice s e copyright_text ++ tail)) = true.
Proof.
  intros Hfl. destruct notice_hit as (j & x & Hj & Hx & Hm).
  pose proof notice_no_nl as Hno.
  unfold formatted_notice. rewrite join_nl by apply notice_nonempty.
  rewrite <- (take_drop_middle _ _ _ Hx), fmap_app, fmap_cons, concat_app.
  simpl concat. rewrite <- !app_assoc. rewrite app_assoc. simpl.
  set (pre := first_line ++ _). set (post := _ ++ tail).
  assert (Hpre : (count_nl pre ≤ 19)%nat).
  { unfold pre. rewrite count_nl_app, count_nl_lines by by apply Forall_take.
    rewrite length_take. lia. }
  destruct (lines_of_hit marker pre x post) as (line & Hline & Hc);
    [exact (Forall_lookup_1 _ _ _ _ Hno Hx) | done |].
  unfold already_has_notice. apply existsb_exists. exists line.
  split; [|done]. apply list_elem_of_In, list_elem_of_lookup.
  exists (count_nl pre). apply lookup_take_Some. split; [done | lia].
Qed.

Lemma rewritten_has_notice extension c :
  already_has_notice (readlines (rewritten extension s e copyright_text c)) = true.
Proof.
  rewrite readlines_id by by apply rewritten_no_cr.
  unfold rewritten, special_first_line.
  pose proof (readlines_count c) as Hcount.
  destruct (readlines c) as [|line1 rest].
  - apply (guard_finds_notice []). unfold count_nl. simpl. lia.
  - destruct (is_special extension line1).
    + apply guard_finds_notice. by inversion Hcount.
    + apply (guard_finds_notice []). unfold count_nl. simpl. lia.
Qed.

End SecondRun.

(** C1 as stated fails: a notice without the marker "Copyright (c)" is
    inserted again by the second run. *)
Lemma second_run_inserts_again :
  let text := lit "Copyright 2024 Example Corp." in
  let once :=
    (prepend_copyright (lit "proj/main.py") text COMMENT_MAP sample_world).2 in
  let twice := (prepend_copyright (lit "proj/main.py") text COMMENT_MAP once).2 in
  files once !! lit "proj/main.py"
  = Some (Text (lit "# Copyright 2024 Example Corp." ++ [nl] ++ [nl]
                ++ lit "print(1)" ++ [nl]) false)
  ∧ files twice !! lit "proj/main.py"
    = Some (Text (lit "# Copyright 2024 Example Corp." ++ [nl] ++ [nl]
                  ++ lit "# Copyright 2024 Example Corp." ++ [nl] ++ [nl]
                  ++ lit "print(1)" ++ [nl]) false)
  ∧ files twice ≠ files once.
Proof.
  split_and!; [vm_compute; reflexivity | vm_compute; reflexivity |].
  intros H. apply (f_equal (λ m, m !! lit "proj/main.py")) in H.
  vm_compute in H. discriminate.
Qed.

(** C1, amended: when the notice text holds no carriage return and the
    marker "Copyright (c)" stands in one of the first 18 lines of the
    notice text, a second run on the same file leaves every file as the
    first run left it; after a first run that inserted, the second run
    takes the duplicate branch. *)
Theorem second_run_changes_nothing file_path copyright_text w :
  cr ∉ copyright_text →
  existsb (contains marker) (take 18 (copyright_lines copyright_text)) = true →
  let once := (prepend_copyright file_path copyright_text COMMENT_MAP w).2 in
  files (prepend_copyright file_path copyright_text COMMENT_MAP once).2 = files once
  ∧ (out once = out w ++ [Added file_path] →
     prepend_copyright file_path copyright_text COMMENT_MAP once
     = (Ret tt, World (files once) (tree once) (out once ++ [AlreadyFound file_path]))).
Proof.
  intros Hcr Hmark once. subst once.
  assert (Hother : ∀ o m (P : Prop), m ≠ Added file_path →
            o ++ [m] = o ++ [Added file_path] → P).
  { intros o m P Hm Heq. apply app_inv_head in Heq. congruence. }
  destruct (COMMENT_MAP !! extension_of file_path) as [[s e]|] eqn:Hs.
  2:{ rewrite (run_no_style _ _ _ w) by done. cbn [snd files tree out].
      rewrite run_no_style by done. cbn [snd files tree out]. split; [done|]. by apply Hother. }
  destruct (COMMENT_MAP_no_nl _ _ _ Hs) as [Hsn Hen].
  destruct (COMMENT_MAP_no_cr _ _ _ Hs) as [Hsc Hec].
  destruct (files w !! file_path) as [[| |c b]|] eqn:Hf.
  - rewrite (run_denied _ _ _ w (s, e)) by done. cbn [snd files tree out].
    erewrite run_denied by done. cbn [snd files tree out]. split; [done|]. by apply Hother.
  - rewrite (run_undecodable _ _ _ w (s, e)) by done. cbn [snd files tree out].
    erewrite run_undecodable by done. cbn [snd files tree out]. split; [done|]. by apply Hother.
  - destruct (already_has_notice (readlines c)) eqn:Ha.
    { rewrite (run_already _ _ _ w (s, e) c b) by done. cbn [snd files tree out].
      erewrite run_already by done. cbn [snd files tree out]. split; [done|]. by apply Hother. }
    destruct b.
    + rewrite (run_faulty _ _ _ w (s, e) c) by done. cbn [snd files tree out].
      erewrite (run_faulty _ _ _ _ (s, e) []);
        [| done | apply lookup_insert_eq | done].
      cbn [snd files tree out]. split; [by rewrite insert_insert_eq | by apply Hother].
    + rewrite (run_insert _ _ _ w s e c) by done. cbn [snd files tree out].
      erewrite run_already;
        [| done | apply lookup_insert_eq | by apply rewritten_has_notice].
      cbn [snd files tree out]. done.
  - rewrite (run_missing _ _ _ w (s, e)) by done. cbn [snd files tree out].
    erewrite run_missing by done. cbn [snd files tree out]. split; [done|]. by apply Hother.
Qed.

Lemma second_run_changes_nothing_witness :
  let once :=
    (prepend_copyright (lit "proj/src/run.sh") sample_notice COMMENT_MAP sample_world).2 in
  files (prepend_copyright (lit "proj/src/run.sh") sample_notice COMMENT_MAP once).2
  = files once.
Proof.
  apply (second_run_changes_nothing (lit "proj/src/run.sh") sample_notice sample_world).
  - apply (bool_decide_unpack _). vm_compute. exact I.
  - vm_compute. reflexivity.
Defined.

(** ** The batch *)

(** Every call of [prepend_copyright] returns normally, prints one line
    about its file and leaves the directory tree alone. *)
Lemma prepend_copyright_returns file_path copyright_text comment_map w :
  ∃ fs m, prepend_copyright file_path copyright_text comment_map w
          = (Ret tt, World fs (tree w) (out w ++ [m]))
          ∧ subject m = Some file_path.
Proof.
  destruct (comment_map !! extension_of file_path) as [[s e]|] eqn:Hs.
  2:{ do 2 eexists. split; [by apply run_no_style | done]. }
  destruct (files w !! file_path) as [[| |c b]|] eqn:Hf.
  - do 2 eexists. split; [by eapply run_denied | done].
  - do 2 eexists. split; [by eapply run_undecodable | done].
  - destruct (already_has_notice (readlines c)) eqn:Ha.
    { do 2 eexists. split; [by eapply run_already | done]. }
    destruct b.
    + do 2 eexists. split; [by eapply run_faulty | done].
    + do 2 eexists. split; [by eapply run_insert | done].
  - do 2 eexists. split; [by eapply run_missing | done].
Qed.

(** C9: an exception raised in the body of [prepend_copyright] is caught by
    its handler and logged, and the loop over the candidates calls
    [prepend_copyright] on every one of them: the batch returns normally
    and has printed one status line per candidate, in their order. *)
Theorem batch_runs_to_completion found_files copyright_text comment_map w :
  (∀ file_path w0 e w1,
     prepend_copyright_body file_path copyright_text comment_map w0 = (Raise e, w1) →
     prepend_copyright file_path copyright_text comment_map w0
     = (Ret tt, World (files w1) (tree w1) (out w1 ++ [ErrorProcessing file_path e])))
  ∧ ∃ fs log,
      for_each found_files
               (λ file_path, prepend_copyright file_path copyright_text comment_map) w
      = (Ret tt, World fs (tree w) (out w ++ log))
      ∧ subject <$> log = Some <$> found_files.
Proof.
  split.
  - intros file_path w0 e w1 Hraise.
    destruct (prepend_copyright_returns file_path copyright_text comment_map w0)
      as (fs & m & Hret & _).
    unfold prepend_copyright, try_except in *. rewrite Hraise in *.
    destruct (is_Exception e); [done | discriminate].
  - revert w. induction found_files as [|file_path rest IH]; intros w.
    + exists (files w), []. destruct w. simpl. by rewrite app_nil_r.
    + destruct (prepend_copyright_returns file_path copyright_text comment_map w)
        as (fs1 & m & Hret & Hm).
      destruct (IH (World fs1 (tree w) (out w ++ [m]))) as (fs & log & Hrest & Hlog).
      exists fs, (m :: log). cbn [for_each]. rewrite bind_run, Hret, Hrest.
      cbn [tree out]. split.
      * by rewrite <- app_assoc.
      * rewrite !fmap_cons. by rewrite Hm, Hlog.
Qed.

Lemma batch_runs_to_completion_witness :
  prepend_copyright (lit "proj/locked.py") sample_notice COMMENT_MAP sample_world
  = (Ret tt, World (files sample_world) (tree sample_world)
                   (out sample_world
                    ++ [ErrorProcessing (lit "proj/locked.py") PermissionError])).
Proof.
  apply (proj1 (batch_runs_to_completion [] sample_notice COMMENT_MAP sample_world)
               (lit "proj/locked.py") sample_world PermissionError sample_world).
  vm_compute. reflexivity.
Defined.

Example main_sample :
  let r := main (Inputs (lit "proj") (lit "py, js") (lit "venv, .git")) sample_world in
  exit_status r.1 = 0%Z
  ∧ out r.2
    = [Found 6;
       Added (lit "proj/main.py");
       AlreadyFound (lit "proj/old.py");
       ErrorProcessing (lit "proj/locked.py") PermissionError;
       ErrorProcessing (lit "proj/blob.py") UnicodeDecodeError;
       ErrorProcessing (lit "proj/full.py") OSError;
       Added (lit "proj/src/app.js");
       Complete]
  ∧ files r.2 !! lit "proj/src/app.js"
    = Some (Text (lit "/*" ++ [nl]
                  ++ lit " * Copyright (c) 2024 Example Corp." ++ [nl]
                  ++ lit " * All rights reserved." ++ [nl]
                  ++ lit "  */" ++ [nl] ++ [nl]
                  ++ lit "let x = 1;") false)
  ∧ files r.2 !! lit "proj/src/venv/x.py" = files sample_world !! lit "proj/src/venv/x.py".
Proof. vm_compute. done. Qed.

Example batch_sample :
  out (for_each [lit "proj/locked.py"; lit "proj/blob.py"; lit "proj/nope.py";
                 lit "proj/full.py"; lit "proj/old.py"; lit "proj/main.py"]
         (λ file_path, prepend_copyright file_path sample_notice COMMENT_MAP)
         sample_world).2
  = [ErrorProcessing (lit "proj/locked.py") PermissionError;
     ErrorProcessing (lit "proj/blob.py") UnicodeDecodeError;
     ErrorProcessing (lit "proj/nope.py") FileNotFoundError;
     ErrorProcessing (lit "proj/full.py") OSError;
     AlreadyFound (lit "proj/old.py");
     Added (lit "proj/main.py")].
Proof. vm_compute. reflexivity. Qed.

(** ** The walk *)

Lemma node_ind (P : node → Prop) :
  (∀ n, P (File n)) → (∀ n, P (Link n)) →
  (∀ n es, Forall P es → P (Dir n es)) → ∀ t, P t.
Proof.
  intros HF HL HD. fix IH 1. intros [n|n|n es]; [apply HF | apply HL |].
  apply HD. induction es as [|c es IHes]; constructor; [apply IH | exact IHes].
Qed.

Lemma child_Some es d c : child es d = Some c → c ∈ es ∧ node_name c = d.
Proof.
  unfold child. intros [Hin Hn]%find_some. split; [by apply list_elem_of_In|].
  unfold eqb in Hn. by apply bool_decide_eq_true in Hn.
Qed.

Lemma foldl_same {A B} (f g : A → B → A) a l :
  (∀ a b, f a b = g a b) → foldl f a l = foldl g a l.
Proof.
  intros H. revert a. induction l as [|b l IH]; intros a; simpl; [done|].
  by rewrite H, IH.
Qed.

(** One step of [os.walk]: the body runs on the directory, then the walk
    goes into the sub-directories named by the list the body has left. *)
Lemma walk_Dir {S} (body : str → list str → list str → S → list str * S)
    top n es s :
  walk body top (Dir n es) s
  = foldl (λ s dirname,
             match child es dirname with
             | Some (Dir _ _ as c) => walk body (Path.join top dirname) c s
             | _ => s
             end)
          (body top (dirs_of es) (nondirs_of es) s).2
          (body top (dirs_of es) (nondirs_of es) s).1.
Proof.
  simpl. destruct (body top (dirs_of es) (nondirs_of es) s) as [dirnames s1].
  simpl. apply foldl_same. intros a d. unfold child.
  induction es as [|c es IH]; simpl; [done|].
  destruct (eqb (node_name c) d); [by destruct c | exact IH].
Qed.

Lemma scan_filenames_spec extensions dirpath filenames acc p :
  p ∈ scan_filenames extensions dirpath filenames acc
  ↔ p ∈ acc ∨ ∃ f, f ∈ filenames ∧ matches extensions f ∧ p = Path.join dirpath f.
Proof.
  unfold scan_filenames. revert acc.
  induction filenames as [|f fs IH]; intros acc; simpl.
  - split; [by left | intros [H | (f & Hf & _)]; [done | by apply elem_of_nil in Hf]].
  - rewrite IH. clear IH. unfold matches, eqb.
    destruct (bool_decide (lit "dockerfile" ∈ extensions)) eqn:Hd; simpl.
    + apply bool_decide_eq_true in Hd. case_bool_decide as Hn; simpl.
      * rewrite elem_of_app, list_elem_of_singleton. split.
        -- intros [[H | ->] | (g & Hg & Hm & ->)]; [by left | |].
           ++ right. exists f. split_and!; [by left | by left | done].
           ++ right. exists g. split_and!; [by right | done | done].
        -- intros [H | (g & Hg & Hm & ->)]; [by left; left |].
           apply elem_of_cons in Hg as [-> | Hg]; [by left; right |].
           right. by exists g.
      * case_bool_decide as He.
        -- rewrite elem_of_app, list_elem_of_singleton. split.
           ++ intros [[H | ->] | (g & Hg & Hm & ->)]; [by left | |].
              ** right. exists f. split_and!; [by left | by right | done].
              ** right. exists g. split_and!; [by right | done | done].
           ++ intros [H | (g & Hg & Hm & ->)]; [by left; left |].
              apply elem_of_cons in Hg as [-> | Hg]; [by left; right |].
              right. by exists g.
        -- split.
           ++ intros [H | (g & Hg & Hm & ->)]; [by left |].
              right. exists g. split_and!; [by right | done | done].
           ++ intros [H | (g & Hg & Hm & ->)]; [by left |].
              apply elem_of_cons in Hg as [-> | Hg]; [|right; by exists g].
              destruct Hm as [[_ ?] | ?]; done.
    + apply bool_decide_eq_false in Hd. case_bool_decide as He.
      * rewrite elem_of_app, list_elem_of_singleton. split.
        -- intros [[H | ->] | (g & Hg & Hm & ->)]; [by left | |].
           ++ right. exists f. split_and!; [by left | by right | done].
           ++ right. exists g. split_and!; [by right | done | done].
        -- intros [H | (g & Hg & Hm & ->)]; [by left; left |].
           apply elem_of_cons in Hg as [-> | Hg]; [by left; right |].
           right. by exists g.
      * split.
        -- intros [H | (g & Hg & Hm & ->)]; [by left |].
           right. exists g. split_and!; [by right | done | done].
        -- intros [H | (g & Hg & Hm & ->)]; [by left |].
           apply elem_of_cons in Hg as [-> | Hg]; [|right; by exists g].
           destruct Hm as [[? _] | ?]; done.
Qed.

(** ** Paths below a root *)

Section PathFacts.

Implicit Types (a n m x : str) (ns : list str).

Lemma name_ok_spec n : name_ok n = true ↔ n ≠ [] ∧ slash ∉ n.
Proof.
  unfold name_ok. rewrite andb_true_iff, negb_true_iff, bool_decide_eq_false.
  rewrite forallb_forall. split; intros [Hn Hs]; (split; [done|]).
  - intros Hin%list_elem_of_In. apply Hs in Hin. by rewrite N.eqb_refl in Hin.
  - intros c Hin%list_elem_of_In. apply negb_true_iff, N.eqb_neq. by intros ->.
Qed.

Lemma endswith_sep_app x m : m ≠ [] → Path.endswith_sep (x ++ m) = Path.endswith_sep m.
Proof.
  intros Hm. unfold Path.endswith_sep. rewrite rev_app_distr.
  destruct (rev m) as [|c r] eqn:Hr; [|done].
  apply (f_equal (@rev N)) in Hr. rewrite rev_involutive in Hr. done.
Qed.

Lemma endswith_sep_name n : name_ok n = true → Path.endswith_sep n = false.
Proof.
  intros [Hn Hs]%name_ok_spec. unfold Path.endswith_sep.
  destruct (rev n) as [|c r] eqn:Hr; [done|].
  apply N.eqb_neq. intros ->. apply Hs, list_elem_of_In, in_rev.
  rewrite Hr. by left.
Qed.

Lemma startswith_sep_name n : name_ok n = true → startswith n [slash] = false.
Proof.
  intros [Hn Hs]%name_ok_spec. destruct n as [|c n]; [done|]. cbn [startswith].
  rewrite andb_true_r. apply N.eqb_neq. intros <-. apply Hs. by left.
Qed.

Lemma join_name a n :
  name_ok n = true → Path.join a n = root_prefix a ++ n.
Proof.
  intros Hn. unfold Path.join, root_prefix.
  rewrite startswith_sep_name by done.
  destruct (_ || _); [done | by rewrite <- app_assoc].
Qed.

Lemma chain_path_names a ns :
  a ≠ [] → Path.endswith_sep a = false → Forall (λ n, name_ok n = true) ns →
  chain_path a ns = a ++ concat ((λ n, slash :: n) <$> ns).
Proof.
  unfold chain_path. intros Ha He Hns. revert a Ha He.
  induction Hns as [|n ns Hn _ IH]; intros a Ha He; simpl.
  - by rewrite app_nil_r.
  - rewrite join_name by done. unfold root_prefix.
    rewrite bool_decide_eq_false_2, He by done. simpl.
    rewrite IH.
    + by rewrite <- !app_assoc.
    + by destruct a.
    + apply name_ok_spec in Hn as Hn'. destruct Hn' as [Hne _].
      rewrite endswith_sep_app by done. by apply endswith_sep_name.
Qed.

Lemma join_slash_concat n ns :
  join [slash] (n :: ns) = n ++ concat ((λ m, slash :: m) <$> ns).
Proof.
  revert n. induction ns as [|m ns IH]; intros n.
  - simpl. by rewrite app_nil_r.
  - change (join [slash] (n :: m :: ns)) with (n ++ [slash] ++ join [slash] (m :: ns)).
    by rewrite IH.
Qed.

(** The path of a file below the root, written out. *)
Lemma file_path_names root_dir ns f :
  Forall (λ n, name_ok n = true) ns → name_ok f = true →
  Path.join (chain_path root_dir ns) f
  = root_prefix root_dir ++ join [slash] (ns ++ [f]).
Proof.
  intros Hns Hf.
  assert (Hall : Forall (λ n, name_ok n = true) (ns ++ [f])).
  { apply Forall_app. split; [done | by repeat constructor]. }
  replace (Path.join (chain_path root_dir ns) f) with (chain_path root_dir (ns ++ [f]))
    by (unfold chain_path; apply foldl_snoc).
  destruct (ns ++ [f]) as [|n rest] eqn:E; [by destruct ns|]. clear E.
  inversion Hall as [|? ? Hn Hrest]; subst.
  rewrite join_slash_concat.
  unfold chain_path. simpl. fold (chain_path (Path.join root_dir n) rest).
  rewrite join_name by done.
  apply name_ok_spec in Hn as Hn'. destruct Hn' as [Hne _].
  rewrite chain_path_names; [by rewrite <- app_assoc | | | done].
  - intros [_ ?]%app_eq_nil. done.
  - rewrite endswith_sep_app by done. by apply endswith_sep_name.
Qed.

(** A text is cut at its first separator in one way only. *)
Lemma cut_at_slash n m x y :
  slash ∉ n → slash ∉ m →
  (x = [] ∨ ∃ x', x = slash :: x') → (y = [] ∨ ∃ y', y = slash :: y') →
  n ++ x = m ++ y → n = m ∧ x = y.
Proof.
  revert m. induction n as [|c n IH]; intros m Hn Hm Hx Hy Heq.
  - destruct m as [|d m]; [done|]. simpl in Heq.
    destruct Hx as [-> | [x' ->]]; [done|]. injection Heq as <- _.
    exfalso. apply Hm. by left.
  - destruct m as [|d m]; simpl in Heq.
    + destruct Hy as [-> | [y' ->]]; [done|]. injection Heq as -> _.
      exfalso. apply Hn. by left.
    + injection Heq as <- Heq. apply not_elem_of_cons in Hn as [_ Hn].
      apply not_elem_of_cons in Hm as [_ Hm].
      destruct (IH m Hn Hm Hx Hy Heq) as [-> ->]. done.
Qed.

Lemma concat_slash_shape ns :
  let x := concat ((λ m, slash :: m) <$> ns) in
  x = [] ∨ ∃ x', x = slash :: x'.
Proof. destruct ns; [by left | right; simpl; eauto]. Qed.

Lemma concat_slash_inj ns ms :
  Forall (λ n, name_ok n = true) ns → Forall (λ n, name_ok n = true) ms →
  concat ((λ m, slash :: m) <$> ns) = concat ((λ m, slash :: m) <$> ms) → ns = ms.
Proof.
  intros Hns. revert ms. induction Hns as [|n ns Hn Hns IH]; intros ms Hms Heq.
  - by destruct ms.
  - destruct Hms as [|m ms Hm Hms]; [done|].
    rewrite !fmap_cons in Heq. simpl in Heq. injection Heq as Heq.
    apply name_ok_spec in Hn as [_ Hn]. apply name_ok_spec in Hm as [_ Hm].
    destruct (cut_at_slash n m _ _ Hn Hm (concat_slash_shape ns)
                           (concat_slash_shape ms) Heq) as [-> Htail].
    f_equal. by apply IH.
Qed.

(** Two files below the same root have the same path only if they are
    reached through the same directories and have the same name. *)
Lemma file_path_inj root_dir ns f ms g :
  Forall (λ n, name_ok n = true) ns → name_ok f = true →
  Forall (λ n, name_ok n = true) ms → name_ok g = true →
  Path.join (chain_path root_dir ns) f = Path.join (chain_path root_dir ms) g →
  ns = ms ∧ f = g.
Proof.
  intros Hns Hf Hms Hg. rewrite !file_path_names by done.
  intros Heq%app_inv_head.
  assert (Hall : ∀ l h, Forall (λ n, name_ok n = true) l → name_ok h = true →
                        Forall (λ n, name_ok n = true) (l ++ [h])).
  { intros l h Hl Hh. apply Forall_app. split; [done | by repeat constructor]. }
  pose proof (Hall ns f Hns Hf) as Ha. pose proof (Hall ms g Hms Hg) as Hb.
  apply app_inj_tail.
  destruct (ns ++ [f]) as [|n ns'] eqn:En; [by destruct ns|].
  destruct (ms ++ [g]) as [|m ms'] eqn:Em; [by destruct ms|].
  rewrite !join_slash_concat in Heq.
  inversion Ha as [|? ? Hn Hns']; subst. inversion Hb as [|? ? Hm Hms']; subst.
  apply name_ok_spec in Hn as [_ Hn]. apply name_ok_spec in Hm as [_ Hm].
  destruct (cut_at_slash n m _ _ Hn Hm (concat_slash_shape ns')
                         (concat_slash_shape ms') Heq) as [-> Htail].
  f_equal. by apply concat_slash_inj.
Qed.

End PathFacts.

(** ** What the scanner collects *)

Lemma foldl_invariant {A B} (I : A → Prop) (f : A → B → A) a l :
  I a → (∀ a b, b ∈ l → I a → I (f a b)) → I (foldl f a l).
Proof.
  revert a. induction l as [|b l IH]; intros a Ha Hstep; simpl; [done|].
  apply IH.
  - apply Hstep; [by left | done].
  - intros a' b' Hb'. apply Hstep. by right.
Qed.

Lemma names_ok_unfold c :
  names_ok c = true → name_ok (node_name c) = true ∧ entries_ok c = true.
Proof. destruct c; simpl; rewrite andb_true_iff; tauto. Qed.

Lemma entries_ok_elem n es c :
  entries_ok (Dir n es) = true → c ∈ es → names_ok c = true.
Proof.
  simpl. rewrite forallb_forall. intros H Hin. by apply H, list_elem_of_In.
Qed.

Lemma elem_of_dirs_of es d :
  d ∈ dirs_of es ↔ ∃ c, c ∈ es ∧ is_dir c = true ∧ node_name c = d.
Proof.
  unfold dirs_of. rewrite list_elem_of_fmap. split.
  - intros (c & -> & [Hd Hc]%list_elem_of_filter). exists c.
    split_and!; [done | by apply Is_true_true | done].
  - intros (c & Hc & Hd & <-). exists c. split; [done|].
    apply list_elem_of_filter. split; [by apply Is_true_true | done].
Qed.

Lemma elem_of_nondirs_of es f :
  f ∈ nondirs_of es ↔ ∃ c, c ∈ es ∧ is_dir c = false ∧ node_name c = f.
Proof.
  unfold nondirs_of. rewrite list_elem_of_fmap. split.
  - intros (c & -> & [Hd Hc]%list_elem_of_filter). exists c.
    split_and!; [done | by destruct (is_dir c) | done].
  - intros (c & Hc & Hd & <-). exists c. split; [done|].
    apply list_elem_of_filter. split; [|done]. rewrite Hd. by intros [].
Qed.

Section Scanner.

Variables (extensions excluded_dirs : gset str) (root_dir : str).

Local Abbreviation body := (scan_body extensions excluded_dirs).
Local Abbreviation collected := (collected excluded_dirs root_dir).

Lemma walk_sound t :
  entries_ok t = true →
  ∀ chain acc,
    Forall (λ d, d ∉ excluded_dirs) chain →
    Forall (λ d, name_ok d = true) chain →
    (∀ p, p ∈ acc → collected p) →
    ∀ p, p ∈ walk body (chain_path root_dir chain) t acc → collected p.
Proof.
  induction t as [n|n|n es IH] using node_ind; [done | done |].
  intros Hok chain acc Hex Hnames Hacc. rewrite walk_Dir.
  apply (foldl_invariant (λ a, ∀ p, p ∈ a → collected p)).
  - simpl. intros p [Hp | (f & Hf & _ & ->)]%scan_filenames_spec; [by apply Hacc|].
    exists chain, f. split_and!; [done | done | done |].
    apply elem_of_nondirs_of in Hf as (c & Hc & _ & <-).
    by apply names_ok_unfold, (entries_ok_elem n es).
  - simpl. intros a d [Hd Hin]%list_elem_of_filter Ha.
    destruct (child es d) as [[| |d' es']|] eqn:Hch; [done | done | | done].
    apply child_Some in Hch as [Hc Hname]. simpl in Hname. subst d'.
    pose proof (entries_ok_elem n es _ Hok Hc) as [Hdn Hde]%names_ok_unfold.
    replace (Path.join (chain_path root_dir chain) d)
      with (chain_path root_dir (chain ++ [d]))
      by (unfold chain_path; apply foldl_snoc).
    rewrite Forall_forall in IH. apply (IH _ Hc Hde); [| | done].
    + apply Forall_app. split; [done | by repeat constructor].
    + apply Forall_app. split; [done | by repeat constructor].
Qed.

Lemma walk_mono t top acc p : p ∈ acc → p ∈ walk body top t acc.
Proof.
  revert top acc. induction t as [n|n|n es IH] using node_ind; [done | done |].
  intros top acc Hp. rewrite walk_Dir.
  apply (foldl_invariant (λ a, p ∈ a)).
  - simpl. apply scan_filenames_spec. by left.
  - intros a d _ Ha.
    destruct (child es d) as [[| |d' es']|] eqn:Hch; [done | done | | done].
    apply child_Some in Hch as [Hc _].
    rewrite Forall_forall in IH. by apply (IH _ Hc).
Qed.

Lemma walk_complete t dirs t' :
  reaches excluded_dirs t dirs t' →
  ∀ n' es' f top acc,
    t' = Dir n' es' → f ∈ nondirs_of es' → matches extensions f →
    Path.join (chain_path top dirs) f ∈ walk body top t acc.
Proof.
  induction 1 as [t | n es d d' es0 ds t' Hch Hex Hreach IH];
    intros n' es' f top acc -> Hf Hm.
  - rewrite walk_Dir. apply (foldl_invariant (λ a, Path.join top f ∈ a)).
    + simpl. apply scan_filenames_spec. right. by exists f.
    + intros a d _ Ha.
      destruct (child es' d) as [[| |d' es0]|]; [done | done | | done].
      by apply walk_mono.
  - rewrite walk_Dir. simpl fst. simpl snd.
    assert (Hd : d ∈ filter (λ d, d ∉ excluded_dirs) (dirs_of es)).
    { apply list_elem_of_filter. split; [done|]. apply elem_of_dirs_of.
      apply child_Some in Hch as [Hc Hn]. by exists (Dir d' es0). }
    apply list_elem_of_split in Hd as (l1 & l2 & ->).
    rewrite foldl_app. simpl. rewrite Hch.
    apply (foldl_invariant (λ a, Path.join (chain_path top (d :: ds)) f ∈ a)).
    + unfold chain_path. simpl. by eapply IH.
    + intros a b _ Ha.
      destruct (child es b) as [[| |? ?]|]; [done | done | | done].
      by apply walk_mono.
Qed.

End Scanner.

Lemma file_at_names t dirs f :
  file_at t dirs f → entries_ok t = true →
  Forall (λ d, name_ok d = true) dirs ∧ name_ok f = true.
Proof.
  induction 1 as [n es f Hf | n es d es' ds f Hd _ IH]; intros Hok.
  - split; [constructor|].
    by apply (entries_ok_elem _ _ _ Hok), names_ok_unfold in Hf as [Hf _].
  - apply (entries_ok_elem _ _ _ Hok), names_ok_unfold in Hd as [Hd Hes].
    destruct (IH Hes) as [Hds Hf]. split; [by constructor | done].
Qed.

(** ** Excluded directories *)

(** C4: a file that lies below the root through a chain of directories of
    which one bears an excluded name is not in the list the scanner
    returns, whatever its extension. *)
Theorem excluded_subtrees_are_skipped
    w root_dir extensions_str excluded_dirs t dirs f :
  tree w !! root_dir = Some t → entries_ok t = true →
  file_at t dirs f →
  (∃ d, d ∈ dirs ∧ d ∈ excluded_dirs) →
  Path.join (chain_path root_dir dirs) f
  ∉ find_files_by_extensions w root_dir extensions_str (Some excluded_dirs).
Proof.
  intros Ht Hok Hat (d & Hd & Hex) Hin.
  destruct (file_at_names t dirs f Hat Hok) as [Hdirs Hf].
  unfold find_files_by_extensions in Hin.
  destruct (negb (isdir w root_dir)); [by apply elem_of_nil in Hin|].
  rewrite Ht in Hin. simpl in Hin.
  apply (walk_sound _ excluded_dirs root_dir t Hok [] []) in Hin;
    [| constructor | constructor | by intros p Hp%elem_of_nil].
  destruct Hin as (dirs' & f' & Heq & Hnot & Hdirs' & Hf').
  apply file_path_inj in Heq as [<- _]; [|done..].
  rewrite Forall_forall in Hnot. by apply (Hnot d).
Qed.

Lemma excluded_subtrees_are_skipped_witness :
  lit "proj/src/venv/x.py"
  ∉ find_files_by_extensions sample_world (lit "proj") (lit "py,js")
                             (Some {[lit "venv"]}).
Proof.
  apply (excluded_subtrees_are_skipped sample_world (lit "proj") (lit "py,js")
           {[lit "venv"]} sample_tree [lit "src"; lit "venv"] (lit "x.py")).
  - vm_compute. reflexivity.
  - vm_compute. reflexivity.
  - eapply file_below; [do 3 right; left |].
    eapply file_below; [right; left |].
    apply file_here. left.
  - exists (lit "venv"). split; [right; left | by apply elem_of_singleton].
Defined.

Example scanner_sample :
  find_files_by_extensions sample_world (lit "proj") (lit "py, js")
                           (Some {[lit "venv"]})
  = [lit "proj/main.py"; lit "proj/old.py"; lit "proj/locked.py";
     lit "proj/blob.py"; lit "proj/full.py"; lit "proj/src/app.js"].
Proof. vm_compute. reflexivity. Qed.

(** ** The keyword "dockerfile" *)

(** C2 as stated fails: the run rejects a request that contains the
    keyword "dockerfile". *)
Lemma dockerfile_request_is_rejected :
  let i := Inputs (lit "proj") (lit "py,dockerfile") (lit "venv") in
  lit "dockerfile" ∈ parse_extensions (file_extensions_str i)
  ∧ main i sample_world
    = (Raise (SystemExit 1),
       World (files sample_world) (tree sample_world)
             [Unsupported {[lit "dockerfile"]}; SupportedAre SUPPORTED_EXTENSIONS])
  ∧ exit_status (main i sample_world).1 = 1%Z.
Proof.
  split_and!.
  - apply (bool_decide_unpack _). vm_compute. exact I.
  - vm_compute. reflexivity.
  - vm_compute. reflexivity.
Qed.

(** C2, amended: the run rejects a request that contains the keyword
    "dockerfile", exits with status 1 and touches no file; the scanner,
    called with such a request, collects every file named "Dockerfile" in a
    directory it visits; and [prepend_copyright] with the style table skips
    every path whose last component is "Dockerfile", with the warning on
    the error stream and without touching a file. *)
Theorem dockerfile_keyword :
  (∀ i w,
     lit "dockerfile" ∈ parse_extensions (file_extensions_str i) →
     exit_status (main i w).1 = 1%Z
     ∧ files (main i w).2 = files w
     ∧ ∃ u, lit "dockerfile" ∈ u ∧ Unsupported u ∈ out (main i w).2)
  ∧ (∀ w root_dir extensions_str excluded_dirs t dirs n es,
       tree w !! root_dir = Some t →
       lit "dockerfile" ∈ parse_extensions extensions_str →
       reaches excluded_dirs t dirs (Dir n es) →
       File (lit "Dockerfile") ∈ es →
       Path.join (chain_path root_dir dirs) (lit "Dockerfile")
       ∈ find_files_by_extensions w root_dir extensions_str (Some excluded_dirs))
  ∧ (∀ file_path copyright_text w,
       Path.basename file_path = lit "Dockerfile" →
       prepend_copyright file_path copyright_text COMMENT_MAP w
       = (Ret tt, World (files w) (tree w)
                        (out w ++ [WarnNoStyle (lit "dockerfile") file_path]))
       ∧ stream_of (WarnNoStyle (lit "dockerfile") file_path) = stderr).
Proof.
  split_and!.
  - intros i w Hin.
    assert (Hnot : lit "dockerfile" ∉ SUPPORTED_EXTENSIONS).
    { apply (bool_decide_unpack _). vm_compute. exact I. }
    rewrite (main_unsupported i w _ Hin Hnot). cbn [fst snd files out exit_status].
    split_and!; [done | done |]. eexists. split.
    + by apply elem_of_difference.
    + apply elem_of_app. right. by left.
  - intros w root_dir extensions_str excluded_dirs t dirs n es Ht Hin Hreach Hfile.
    unfold find_files_by_extensions.
    assert (Hdir : isdir w root_dir = true).
    { unfold isdir. rewrite Ht. by inversion Hreach. }
    rewrite Hdir, Ht. simpl.
    eapply walk_complete; [exact Hreach | done | | by left].
    apply elem_of_nondirs_of. by exists (File (lit "Dockerfile")).
  - intros file_path copyright_text w Hbase. split; [|done].
    assert (Hext : extension_of file_path = lit "dockerfile").
    { unfold extension_of. by rewrite Hbase. }
    pose proof (run_no_style file_path copyright_text COMMENT_MAP w) as Hrun.
    rewrite Hext in Hrun. by apply Hrun.
Qed.

Lemma dockerfile_keyword_witness :
  prepend_copyright (lit "proj/Dockerfile") sample_notice COMMENT_MAP sample_world
  = (Ret tt, World (files sample_world) (tree sample_world)
                   (out sample_world
                    ++ [WarnNoStyle (lit "dockerfile") (lit "proj/Dockerfile")])).
Proof.
  apply (proj2 (proj2 dockerfile_keyword) (lit "proj/Dockerfile") sample_notice sample_world).
  vm_compute. reflexivity.
Defined.

Example dockerfile_is_collected :
  find_files_by_extensions sample_world (lit "proj") (lit "dockerfile")
                           (Some {[lit "venv"]})
  = [lit "proj/Dockerfile"].
Proof. vm_compute. reflexivity. Qed.

(** * Further properties *)

(** ** The extension of a path *)

Section ExtensionFacts.

Implicit Types (a b f pre : str) (c : N).

Lemma rfind_bounds c s : (-1 ≤ rfind c s < Z.of_nat (length s))%Z.
Proof.
  induction s as [|a s IH]; simpl; [lia|].
  destruct (Z.leb_spec 0 (rfind c s)); [lia|]. destruct (a =? c); lia.
Qed.

Lemma rfind_notin c s : c ∉ s → rfind c s = (-1)%Z.
Proof.
  induction s as [|a s IH]; [done|]. rewrite not_elem_of_cons. intros [Hc Hs].
  simpl. rewrite IH by done. simpl.
  destruct (N.eqb_spec a c); [congruence | done].
Qed.

Lemma rfind_in c s : c ∈ s → (0 ≤ rfind c s)%Z.
Proof.
  induction s as [|a s IH]; [by intros ?%elem_of_nil|].
  intros Hin. simpl. destruct (Z.leb_spec 0 (rfind c s)) as [|Hneg]; [lia|].
  apply elem_of_cons in Hin as [<- | Hin]; [by rewrite N.eqb_refl|].
  apply IH in Hin. lia.
Qed.

Lemma rfind_app_in c a b :
  c ∈ b → rfind c (a ++ b) = (Z.of_nat (length a) + rfind c b)%Z.
Proof.
  intros Hin. induction a as [|x a IH]; simpl; [lia|].
  rewrite IH. pose proof (rfind_in c b Hin).
  destruct (Z.leb_spec 0 (Z.of_nat (length a) + rfind c b)); lia.
Qed.

Lemma rfind_app_notin c a b : c ∉ b → rfind c (a ++ b) = rfind c a.
Proof.
  intros Hb. induction a as [|x a IH]; simpl; [by apply rfind_notin|].
  by rewrite IH.
Qed.

Lemma rfind_last c a : rfind c (a ++ [c]) = Z.of_nat (length a).
Proof.
  rewrite rfind_app_in by (by left). simpl. rewrite N.eqb_refl. lia.
Qed.

Lemma root_prefix_shape a : root_prefix a = [] ∨ ∃ q, root_prefix a = q ++ [slash].
Proof.
  unfold root_prefix. case_bool_decide as Ha; simpl; [left; by subst|].
  unfold Path.endswith_sep. destruct (rev a) as [|c r] eqn:Hr; [right; eauto|].
  destruct (N.eqb_spec c slash) as [->|]; [|right; eauto].
  right. exists (rev r). rewrite <- (rev_involutive a), Hr. done.
Qed.

(** Behind a directory prefix a file name keeps its extension and is the
    last component. *)
Lemma splitext_behind_prefix pre f :
  name_ok f = true → (pre = [] ∨ ∃ q, pre = q ++ [slash]) →
  (Path.splitext (pre ++ f)).2 = (Path.splitext f).2
  ∧ Path.basename (pre ++ f) = f.
Proof.
  intros [Hne Hslash]%name_ok_spec [-> | [q ->]].
  { rewrite app_nil_l. split; [done|].
    unfold Path.basename. by rewrite (rfind_notin slash f). }
  assert (Hsep : rfind slash ((q ++ [slash]) ++ f) = Z.of_nat (length q)).
  { rewrite rfind_app_notin by done. apply rfind_last. }
  assert (Hlen : length (q ++ [slash]) = S (length q)).
  { rewrite length_app. simpl. lia. }
  split.
  - unfold Path.splitext. rewrite Hsep, (rfind_notin slash f) by done.
    destruct (decide (dot ∈ f)) as [Hdot | Hdot].
    + rewrite rfind_app_in, Hlen by done.
      pose proof (rfind_in dot f Hdot) as H0.
      pose proof (rfind_bounds dot f) as Hb.
      rewrite (proj2 (Z.ltb_lt _ _)) by lia.
      rewrite (proj2 (Z.ltb_lt (-1) (rfind dot f))) by lia.
      unfold slice.
      replace (Z.to_nat (Z.of_nat (S (length q)) + rfind dot f))
        with (length (q ++ [slash]) + Z.to_nat (rfind dot f))%nat by lia.
      replace (Z.to_nat (Z.of_nat (length q) + 1)) with (length (q ++ [slash])) by lia.
      replace (Z.to_nat (-1 + 1)) with 0%nat by lia.
      change (@List.skipn N) with (@drop N). change (@List.firstn N) with (@take N).
      change (Z.to_nat 0) with 0%nat.
      rewrite drop_app_length, !drop_0, drop_app_add.
      replace (length (q ++ [slash]) + Z.to_nat (rfind dot f) - length (q ++ [slash]))%nat
        with (Z.to_nat (rfind dot f) - 0)%nat by lia.
      by destruct (forallb (N.eqb dot) (take (Z.to_nat (rfind dot f) - 0) f)).
    + rewrite rfind_app_notin, (rfind_notin dot f) by done.
      assert (rfind dot (q ++ [slash]) ≤ Z.of_nat (length q))%Z as Hle.
      { pose proof (rfind_bounds dot (q ++ [slash])). lia. }
      assert (rfind dot (q ++ [slash]) ≠ Z.of_nat (length q)) as Hneq.
      { destruct (decide (dot ∈ q)) as [Hq | Hq].
        - assert (dot ∉ [slash]) as Hs.
          { intros [?|?%elem_of_nil]%elem_of_cons; done. }
          rewrite rfind_app_notin by done. pose proof (rfind_bounds dot q). lia.
        - rewrite rfind_notin; [lia|]. rewrite elem_of_app.
          intros [?|[?|?%elem_of_nil]%elem_of_cons]; done. }
      rewrite (proj2 (Z.ltb_ge _ _)) by lia. done.
  - unfold Path.basename. rewrite Hsep.
    replace (Z.to_nat (Z.of_nat (length q) + 1)) with (length (q ++ [slash])) by lia.
    change (@List.skipn N) with (@drop N). by rewrite drop_app_length.
Qed.

End ExtensionFacts.

Lemma scanner_and_inserter_agree_aux dirpath filename :
  name_ok filename = true →
  extension_of (Path.join dirpath filename)
  = if eqb filename (lit "Dockerfile") then lit "dockerfile" else file_ext filename.
Proof.
  intros Hok. rewrite join_name by done.
  destruct (splitext_behind_prefix (root_prefix dirpath) filename Hok
              (root_prefix_shape dirpath)) as [Hext Hbase].
  unfold extension_of, file_ext. by rewrite Hext, Hbase.
Qed.

(** The scanner computes the extension from the file name, the inserter
    from the whole path (lines 131 and 43): for a file below any directory
    path both arrive at the same extension, and the inserter's test for the
    name "Dockerfile" sees the file name. *)
Theorem scanner_and_inserter_agree dirpath filename :
  name_ok filename = true →
  extension_of (Path.join dirpath filename)
  = if eqb filename (lit "Dockerfile") then lit "dockerfile" else file_ext filename.
Proof. apply scanner_and_inserter_agree_aux. Qed.

Lemma scanner_and_inserter_agree_witness :
  extension_of (Path.join (lit "proj.d/src") (lit "app.min.js")) = lit "js".
Proof.
  apply (scanner_and_inserter_agree (lit "proj.d/src") (lit "app.min.js")).
  vm_compute. reflexivity.
Defined.

(** ** The effect of one call on the files *)

Lemma alter_present {A} (f : A → A) (m : gmap str A) i x :
  m !! i = Some x → alter f i m = <[i := f x]> m.
Proof.
  intros H. apply map_eq. intros j. destruct (decide (i = j)) as [<-|Hne].
  - by rewrite lookup_alter_eq, lookup_insert_eq, H.
  - by rewrite lookup_alter_ne, lookup_insert_ne.
Qed.

Lemma alter_same {A} (f : A → A) (m : gmap str A) i :
  (∀ x, m !! i = Some x → f x = x) → alter f i m = m.
Proof. apply alter_id. Qed.

(** One call of [prepend_copyright] returns normally, prints one line about
    its file and applies [file_step] to the state of that file. *)
Lemma prepend_copyright_step file_path copyright_text comment_map w :
  ∃ m, prepend_copyright file_path copyright_text comment_map w
       = (Ret tt, World (alter (file_step file_path copyright_text comment_map)
                               file_path (files w))
                        (tree w) (out w ++ [m]))
       ∧ subject m = Some file_path
       ∧ (m = Added file_path ↔
          ∃ s e c, comment_map !! extension_of file_path = Some (s, e)
                   ∧ files w !! file_path = Some (Text c false)
                   ∧ already_has_notice (readlines c) = false).
Proof.
  unfold file_step.
  destruct (comment_map !! extension_of file_path) as [[s e]|] eqn:Hs.
  2:{ eexists. rewrite run_no_style by done. rewrite alter_same by done.
      split_and!; [done | done |]. split; [done | by intros (? & ? & ? & ? & _)]. }
  destruct (files w !! file_path) as [[| |c b]|] eqn:Hf.
  - eexists. erewrite run_denied by done. rewrite alter_same.
    + split_and!; [done | done |]. split; [done | by intros (? & ? & ? & _ & ? & _)].
    + intros x Hx. rewrite Hf in Hx. by injection Hx as <-.
  - eexists. erewrite run_undecodable by done. rewrite alter_same.
    + split_and!; [done | done |]. split; [done | by intros (? & ? & ? & _ & ? & _)].
    + intros x Hx. rewrite Hf in Hx. by injection Hx as <-.
  - destruct (already_has_notice (readlines c)) eqn:Ha.
    { eexists. erewrite run_already by done. rewrite alter_same.
      + split_and!; [done | done |]. split; [done|].
        intros (? & ? & c' & _ & [= <- _] & Ha'). congruence.
      + intros x Hx. rewrite Hf in Hx. injection Hx as <-. by rewrite Ha. }
    destruct b.
    + eexists. erewrite run_faulty by done.
      rewrite (alter_present _ _ _ _ Hf), Ha.
      split_and!; [done | done |]. split; [done | by intros (? & ? & ? & _ & ? & _)].
    + eexists. erewrite run_insert by done.
      rewrite (alter_present _ _ _ _ Hf), Ha.
      split_and!; [done | done |]. split; [intros _; by exists s, e, c | done].
  - eexists. erewrite run_missing by done. rewrite alter_same.
    + split_and!; [done | done |]. split; [done | by intros (? & ? & ? & _ & ? & _)].
    + intros x Hx. by rewrite Hf in Hx.
Qed.

(** One call creates no file and removes none, leaves the directory tree
    as it is, and leaves a file that it cannot open or decode as it is
    (lines 65-90). *)
Theorem prepend_copyright_frame file_path copyright_text comment_map w :
  let w' := (prepend_copyright file_path copyright_text comment_map w).2 in
  tree w' = tree w
  ∧ dom (files w') = dom (files w)
  ∧ (∀ st, files w !! file_path = Some st →
           (∀ c b, st ≠ Text c b) → files w' !! file_path = Some st).
Proof.
  destruct (prepend_copyright_step file_path copyright_text comment_map w)
    as (m & Hrun & _).
  rewrite Hrun. cbn [snd files tree]. split_and!.
  - done.
  - apply dom_alter_L.
  - intros st Hst Hkind. rewrite lookup_alter_eq, Hst. simpl. f_equal.
    unfold file_step. destruct (comment_map !! _) as [[s e]|]; [|done].
    destruct st as [| |c b]; [done | done |]. by destruct (Hkind c b).
Qed.

(** ** The loop over the files found *)

Lemma batch_run found_files copyright_text comment_map w :
  ∃ log,
    for_each found_files
             (λ file_path, prepend_copyright file_path copyright_text comment_map) w
    = (Ret tt, World (batch_files copyright_text comment_map found_files (files w))
                     (tree w) (out w ++ log))
    ∧ subject <$> log = Some <$> found_files.
Proof.
  revert w. induction found_files as [|file_path rest IH]; intros w.
  - exists []. destruct w. simpl. by rewrite app_nil_r.
  - destruct (prepend_copyright_step file_path copyright_text comment_map w)
      as (m & Hrun & Hm & _).
    destruct (IH (World (alter (file_step file_path copyright_text comment_map)
                               file_path (files w)) (tree w) (out w ++ [m])))
      as (log & Hrest & Hlog).
    exists (m :: log). cbn [for_each]. rewrite bind_run, Hrun, Hrest.
    cbn [files tree out]. split.
    + by rewrite <- app_assoc.
    + rewrite !fmap_cons. by rewrite Hm, Hlog.
Qed.

(** The state of a file after the loop: [file_step] applied once for every
    occurrence of its path, and nothing else. *)
Lemma batch_files_lookup copyright_text comment_map found_files fs q :
  batch_files copyright_text comment_map found_files fs !! q
  = Nat.iter (length (filter (λ p, p = q) found_files))
             (file_step q copyright_text comment_map) <$> fs !! q.
Proof.
  unfold batch_files. revert fs.
  induction found_files as [|p rest IH]; intros fs; simpl.
  - by destruct (fs !! q).
  - rewrite IH. destruct (decide (p = q)) as [->|Hne].
    + rewrite filter_cons_True by done. rewrite lookup_alter_eq.
      destruct (fs !! q); simpl; [|done]. f_equal.
      by rewrite <- Nat.iter_succ_r.
    + rewrite filter_cons_False by done. by rewrite lookup_alter_ne.
Qed.

(** ** The run as a whole *)

Section Run.

Variables (i : inputs) (w : world).

Local Abbreviation found_files :=
  (find_files_by_extensions w (directory_to_search i) (file_extensions_str i)
                            (Some (parse_excluded (excluded_dirs_str i)))).

Hypothesis supported :
  parse_extensions (file_extensions_str i) ∖ SUPPORTED_EXTENSIONS = ∅.

Lemma main_copyright_missing :
  files w !! copyright_file = None →
  main i w = (Raise (SystemExit 1),
              World (files w) (tree w)
                    (out w ++ [CopyrightFileNotFound copyright_file])).
Proof.
  intros Hf. unfold main. rewrite bool_decide_eq_true_2 by done. cbn [negb].
  rewrite bind_run. unfold read_copyright_file.
  rewrite bind_run. unfold open. rewrite Hf.
  rewrite bind_run. unfold print, raise. done.
Qed.

Lemma main_copyright_unreadable st e :
  files w !! copyright_file = Some st →
  (st = Denied ∧ e = PermissionError) ∨ (st = Undecodable ∧ e = UnicodeDecodeError) →
  main i w = (Raise (SystemExit 1),
              World (files w) (tree w) (out w ++ [ErrorReadingCopyright e])).
Proof.
  intros Hf Hst. unfold main. rewrite bool_decide_eq_true_2 by done. cbn [negb].
  rewrite bind_run. unfold read_copyright_file.
  rewrite bind_run. unfold open. rewrite Hf.
  destruct Hst as [[-> ->] | [-> ->]].
  - rewrite bind_run. unfold print, raise. done.
  - unfold f_read. rewrite Hf. rewrite bind_run. unfold print, raise. done.
Qed.

Lemma main_ok c b :
  files w !! copyright_file = Some (Text c b) →
  ∃ log,
    main i w = (Ret tt, World (batch_files (universal_newlines c) COMMENT_MAP
                                           found_files (files w))
                              (tree w) (out w ++ log))
    ∧ (found_files = [] →
       log = [NoFiles (file_extensions_str i) (directory_to_search i)])
    ∧ (found_files ≠ [] →
       ∃ statuses, log = Found (length found_files) :: statuses ++ [Complete]
                   ∧ subject <$> statuses = Some <$> found_files).
Proof.
  intros Hf. unfold main. rewrite bool_decide_eq_true_2 by done. cbn [negb].
  rewrite bind_run. unfold read_copyright_file.
  rewrite bind_run. unfold open. rewrite Hf. unfold f_read. rewrite Hf.
  rewrite bind_run. unfold get_world.
  destruct found_files as [|p rest] eqn:Hfound.
  - rewrite bool_decide_eq_true_2 by done. cbn [negb].
    eexists. split; [unfold print; reflexivity|]. split; [done | done].
  - rewrite bool_decide_eq_false_2 by done. cbn [negb].
    rewrite bind_run. unfold print at 1. cbv iota beta.
    destruct (batch_run (p :: rest) (universal_newlines c) COMMENT_MAP
                (World (files w) (tree w) (out w ++ [Found (length (p :: rest))])))
      as (statuses & Hrun & Hsub).
    rewrite bind_run, Hrun. unfold print. cbn [files tree out].
    exists (Found (length (p :: rest)) :: statuses ++ [Complete]).
    split; [by rewrite <- !app_assoc|]. split; [done|]. intros _. by exists statuses.
Qed.

End Run.

(** ** The list the scanner returns *)

Lemma reaches_snoc excluded_dirs t0 chain t d d' es' :
  reaches excluded_dirs t0 chain t →
  ∀ n es, t = Dir n es →
    child es d = Some (Dir d' es') → d ∉ excluded_dirs →
    reaches excluded_dirs t0 (chain ++ [d]) (Dir d' es').
Proof.
  induction 1 as [t | n0 es0 d0 d0' es0' ds t' Hch Hex Hreach IH];
    intros n es -> Hchild Hd.
  - simpl. eapply reaches_below; [done | done | constructor].
  - simpl. eapply reaches_below; [done | done |]. by eapply IH.
Qed.

Lemma reaches_entries_ok excluded_dirs t dirs t' :
  reaches excluded_dirs t dirs t' → entries_ok t = true → entries_ok t' = true.
Proof.
  induction 1 as [t | n es d d' es' ds t' Hch Hex Hreach IH]; [done|].
  intros Hok. apply IH. apply child_Some in Hch as [Hc _].
  by apply (entries_ok_elem _ _ _ Hok), names_ok_unfold in Hc as [_ Hc].
Qed.

Lemma walk_found extensions excluded_dirs root_dir t0 t :
  ∀ chain acc,
    reaches excluded_dirs t0 chain t →
    (∀ p, p ∈ acc → found_at extensions excluded_dirs t0 root_dir p) →
    ∀ p, p ∈ walk (scan_body extensions excluded_dirs)
                  (chain_path root_dir chain) t acc →
         found_at extensions excluded_dirs t0 root_dir p.
Proof.
  induction t as [n|n|n es IH] using node_ind; [done | done |].
  intros chain acc Hreach Hacc. rewrite walk_Dir.
  apply (foldl_invariant
           (λ a, ∀ p, p ∈ a → found_at extensions excluded_dirs t0 root_dir p)).
  - simpl. intros p [Hp | (f & Hf & Hm & ->)]%scan_filenames_spec; [by apply Hacc|].
    by exists chain, n, es, f.
  - simpl. intros a d [Hd Hin]%list_elem_of_filter Ha.
    destruct (child es d) as [[| |d' es']|] eqn:Hch; [done | done | | done].
    pose proof (reaches_snoc _ _ _ _ _ _ _ Hreach n es eq_refl Hch Hd) as Hreach'.
    apply child_Some in Hch as [Hc _].
    replace (Path.join (chain_path root_dir chain) d)
      with (chain_path root_dir (chain ++ [d]))
      by (unfold chain_path; apply foldl_snoc).
    rewrite Forall_forall in IH. by apply (IH _ Hc).
Qed.

(** The scanner returns exactly the paths of the files that have a
    requested extension (or are named "Dockerfile" when "dockerfile" is
    requested) and lie in the root or in a directory reached from it
    through directories that are real directories, not links, and whose
    names are not excluded (lines 109-135). *)
Theorem scanner_characterization w root_dir extensions_str excluded_dirs t p :
  tree w !! root_dir = Some t →
  p ∈ find_files_by_extensions w root_dir extensions_str (Some excluded_dirs)
  ↔ found_at (parse_extensions extensions_str) excluded_dirs t root_dir p.
Proof.
  intros Ht. unfold find_files_by_extensions, isdir. rewrite Ht. split.
  - destruct t as [n|n|n es]; cbn [negb default]; [by intros ?%elem_of_nil.. |].
    apply (walk_found _ _ root_dir (Dir n es) (Dir n es) [] []); [constructor|].
    by intros q ?%elem_of_nil.
  - intros (dirs & n & es & f & Hreach & Hf & Hm & ->).
    assert (∃ n0 es0, t = Dir n0 es0) as (n0 & es0 & ->).
    { inversion Hreach; subst; eauto. }
    cbn [negb default]. by eapply walk_complete.
Qed.

Lemma scanner_characterization_witness :
  found_at (parse_extensions (lit "py, js")) {[lit "venv"]} sample_tree
           (lit "proj") (lit "proj/src/app.js").
Proof.
  apply (scanner_characterization sample_world (lit "proj") (lit "py, js")
           {[lit "venv"]} sample_tree (lit "proj/src/app.js")).
  - vm_compute. reflexivity.
  - apply (bool_decide_unpack _). vm_compute. exact I.
Defined.

(** The excluded names prune sub-directories only: a matching file that
    lies in the root itself is returned whatever names are excluded, the
    name of the root included (lines 119-133). *)
Theorem root_files_are_always_scanned
    w root_dir extensions_str excluded_dirs n es f :
  tree w !! root_dir = Some (Dir n es) →
  f ∈ nondirs_of es →
  matches (parse_extensions extensions_str) f →
  Path.join root_dir f
  ∈ find_files_by_extensions w root_dir extensions_str excluded_dirs.
Proof.
  intros Ht Hf Hm. unfold find_files_by_extensions, isdir. rewrite Ht.
  cbn [negb]. apply (walk_complete _ (default ∅ excluded_dirs) (Dir n es) [] (Dir n es)
           (reaches_here _ _) n es f root_dir []); done.
Qed.

Lemma root_files_are_always_scanned_witness :
  Path.join (lit "proj") (lit "main.py")
  ∈ find_files_by_extensions sample_world (lit "proj") (lit "py")
                             (Some {[lit "proj"; lit "venv"]}).
Proof.
  apply (root_files_are_always_scanned sample_world (lit "proj") (lit "py")
           (Some {[lit "proj"; lit "venv"]}) (lit "proj")
           (match sample_tree with Dir _ es => es | _ => [] end) (lit "main.py")).
  - vm_compute. reflexivity.
  - apply (bool_decide_unpack _). vm_compute. exact I.
  - right. apply (bool_decide_unpack _). vm_compute. exact I.
Defined.

(** ** The two tables *)

Lemma styles_are_the_supported_extensions : dom COMMENT_MAP = SUPPORTED_EXTENSIONS.
Proof. apply (bool_decide_unpack _). vm_compute. exact I. Qed.

Lemma dockerfile_not_supported : lit "dockerfile" ∉ SUPPORTED_EXTENSIONS.
Proof. apply (bool_decide_unpack _). vm_compute. exact I. Qed.

Lemma no_extension_not_supported : [] ∉ SUPPORTED_EXTENSIONS.
Proof. apply (bool_decide_unpack _). vm_compute. exact I. Qed.

Lemma supported_iff (X : gset str) :
  X ∖ SUPPORTED_EXTENSIONS = ∅ ↔ X ⊆ SUPPORTED_EXTENSIONS.
Proof.
  split.
  - intros He x Hx. destruct (decide (x ∈ SUPPORTED_EXTENSIONS)) as [|Hn]; [done|].
    assert (Hd : x ∈ X ∖ SUPPORTED_EXTENSIONS) by (by apply elem_of_difference).
    rewrite He in Hd. by apply not_elem_of_empty in Hd.
  - intros Hs. apply set_eq. intros x. rewrite elem_of_difference. split.
    + intros [Hx Hn]. destruct Hn. by apply Hs.
    + by intros ?%not_elem_of_empty.
Qed.

Lemma found_file_supported w root_dir extensions_str excluded_dirs t p :
  parse_extensions extensions_str ⊆ SUPPORTED_EXTENSIONS →
  tree w !! root_dir = Some t → entries_ok t = true →
  p ∈ find_files_by_extensions w root_dir extensions_str (Some excluded_dirs) →
  extension_of p ∈ SUPPORTED_EXTENSIONS
  ∧ is_Some (COMMENT_MAP !! extension_of p).
Proof.
  intros Hsup Ht Hok Hp.
  assert (Hin : p ∈ find_files_by_extensions w root_dir extensions_str
                      (Some excluded_dirs)) by done.
  unfold find_files_by_extensions, isdir in Hin. rewrite Ht in Hin.
  assert (found_at (parse_extensions extensions_str) excluded_dirs t root_dir p)
    as (dirs & n & es & f & Hreach & Hf & Hm & ->).
  { destruct t as [n|n|n es]; cbn [negb default] in Hin;
      [by apply elem_of_nil in Hin.. |].
    revert Hin.
    apply (walk_found _ _ root_dir (Dir n es) (Dir n es) [] []); [constructor|].
    by intros q ?%elem_of_nil. }
  assert (Hname : name_ok f = true).
  { pose proof (reaches_entries_ok _ _ _ _ Hreach Hok) as Hes.
    apply elem_of_nondirs_of in Hf as (c & Hc & _ & <-).
    by apply (entries_ok_elem _ _ _ Hes), names_ok_unfold in Hc as [Hc _]. }
  rewrite scanner_and_inserter_agree_aux by done.
  assert (Hext : file_ext f ∈ SUPPORTED_EXTENSIONS ∧ f ≠ lit "Dockerfile").
  { destruct Hm as [[Hd _] | Hm].
    - destruct dockerfile_not_supported. by apply Hsup.
    - split; [by apply Hsup|]. intros ->.
      apply no_extension_not_supported. apply Hsup in Hm. exact Hm. }
  destruct Hext as [Hext Hnd]. unfold eqb. rewrite bool_decide_eq_false_2 by done.
  split; [done|]. apply elem_of_dom. by rewrite styles_are_the_supported_extensions.
Qed.

(** In a run that has accepted the request, every file the scanner returns
    has a comment style: the inserter's branch "no comment style" is not
    taken for any of them (lines 5-27, 124-133, 147-153 and 43-51). *)
Theorem found_files_have_a_style w root_dir extensions_str excluded_dirs t p :
  parse_extensions extensions_str ⊆ SUPPORTED_EXTENSIONS →
  tree w !! root_dir = Some t → entries_ok t = true →
  p ∈ find_files_by_extensions w root_dir extensions_str (Some excluded_dirs) →
  extension_of p ∈ SUPPORTED_EXTENSIONS
  ∧ is_Some (COMMENT_MAP !! extension_of p).
Proof. apply found_file_supported. Qed.

Lemma found_files_have_a_style_witness :
  extension_of (lit "proj/src/app.js") ∈ SUPPORTED_EXTENSIONS
  ∧ is_Some (COMMENT_MAP !! extension_of (lit "proj/src/app.js")).
Proof.
  apply (found_files_have_a_style sample_world (lit "proj") (lit "py, js")
           {[lit "venv"]} sample_tree (lit "proj/src/app.js")).
  - apply (bool_decide_unpack _). vm_compute. exact I.
  - vm_compute. reflexivity.
  - vm_compute. reflexivity.
  - apply (bool_decide_unpack _). vm_compute. exact I.
Defined.

(** ** How a run ends *)

Lemma main_cases i w :
  (∃ m1 m2, main i w = (Raise (SystemExit 1),
                        World (files w) (tree w) (out w ++ [m1; m2]))
            ∧ ¬ parse_extensions (file_extensions_str i) ⊆ SUPPORTED_EXTENSIONS)
  ∨ (∃ m, main i w = (Raise (SystemExit 1), World (files w) (tree w) (out w ++ [m]))
          ∧ stream_of m = stderr
          ∧ parse_extensions (file_extensions_str i) ⊆ SUPPORTED_EXTENSIONS
          ∧ (∀ c b, files w !! copyright_file ≠ Some (Text c b))
          ∧ (files w !! copyright_file = None → m = CopyrightFileNotFound copyright_file))
  ∨ (∃ c b log,
       main i w
       = (Ret tt,
          World (batch_files (universal_newlines c) COMMENT_MAP
                   (find_files_by_extensions w (directory_to_search i)
                      (file_extensions_str i)
                      (Some (parse_excluded (excluded_dirs_str i))))
                   (files w))
                (tree w) (out w ++ log))
       ∧ files w !! copyright_file = Some (Text c b)
       ∧ parse_extensions (file_extensions_str i) ⊆ SUPPORTED_EXTENSIONS).
Proof.
  destruct (decide (parse_extensions (file_extensions_str i)
                    ∖ SUPPORTED_EXTENSIONS = ∅)) as [Hsup | Hsup].
  - pose proof (proj1 (supported_iff _) Hsup) as Hsub.
    destruct (files w !! copyright_file) as [[| |c b]|] eqn:Hf.
    + right; left. exists (ErrorReadingCopyright PermissionError).
      split; [by eapply main_copyright_unreadable; [| | left]|].
      split_and!; [done | done | by intros c b | done].
    + right; left. exists (ErrorReadingCopyright UnicodeDecodeError).
      split; [by eapply main_copyright_unreadable; [| | right]|].
      split_and!; [done | done | by intros c b | done].
    + right; right. destruct (main_ok i w Hsup c b Hf) as (log & Hrun & _).
      by exists c, b, log.
    + right; left. exists (CopyrightFileNotFound copyright_file).
      split; [by apply main_copyright_missing|].
      split_and!; [done | done | by intros c b | done].
  - left.
    assert (∃ ext, ext ∈ parse_extensions (file_extensions_str i)
                   ∧ ext ∉ SUPPORTED_EXTENSIONS) as (ext & Hin & Hnot).
    { apply set_choose_L in Hsup as [ext Hext].
      apply elem_of_difference in Hext. eauto. }
    do 2 eexists. split; [by eapply main_unsupported|].
    intros Hsub. by apply Hnot, Hsub.
Qed.

(** The exit status is settled before the first file is scanned: it is 0
    exactly when every requested extension is supported and the notice
    file can be read as text, and 1 otherwise; what happens to the
    individual files has no part in it (lines 147-175). *)
Theorem exit_status_is_settled_at_startup i w :
  (exit_status (main i w).1 = 0%Z
   ↔ parse_extensions (file_extensions_str i) ⊆ SUPPORTED_EXTENSIONS
     ∧ ∃ c b, files w !! copyright_file = Some (Text c b))
  ∧ (exit_status (main i w).1 = 0%Z ∨ exit_status (main i w).1 = 1%Z).
Proof.
  destruct (main_cases i w)
    as [(m1 & m2 & Hrun & Hsup) | [(m & Hrun & _ & Hsup & Hf & _)
                                   | (c & b & log & Hrun & Hf & Hsup)]];
    rewrite Hrun; cbn [fst exit_status].
  - split; [|by right]. split; [done | by intros [? _]].
  - split; [|by right]. split; [done|]. intros [_ (c & b & Hc)]. by destruct (Hf c b).
  - split; [|by left]. split; [|done]. intros _. split; [done|]. by exists c, b.
Qed.

(** A notice file that is missing or cannot be read ends the run with one
    line on the error stream and status 1, before the scanner runs: no file
    is touched (lines 155-165). *)
Theorem unreadable_notice_file_aborts i w :
  parse_extensions (file_extensions_str i) ⊆ SUPPORTED_EXTENSIONS →
  (∀ c b, files w !! copyright_file ≠ Some (Text c b)) →
  ∃ m, main i w = (Raise (SystemExit 1), World (files w) (tree w) (out w ++ [m]))
       ∧ stream_of m = stderr
       ∧ (files w !! copyright_file = None → m = CopyrightFileNotFound copyright_file).
Proof.
  intros Hsup Hf.
  destruct (main_cases i w)
    as [(m1 & m2 & Hrun & Hnot) | [(m & Hrun & Hm & _ & _ & Hmiss)
                                   | (c & b & log & Hrun & Hc & _)]].
  - done.
  - by exists m.
  - by destruct (Hf c b).
Qed.

Lemma unreadable_notice_file_aborts_witness :
  let i := Inputs (lit "proj") (lit "py") (lit "venv") in
  let w := World (delete copyright_file (files sample_world)) (tree sample_world) [] in
  ∃ m, main i w = (Raise (SystemExit 1), World (files w) (tree w) (out w ++ [m]))
       ∧ stream_of m = stderr
       ∧ (files w !! copyright_file = None → m = CopyrightFileNotFound copyright_file).
Proof.
  intros i w. apply (unreadable_notice_file_aborts i w).
  - apply (bool_decide_unpack _). vm_compute. exact I.
  - intros c b. unfold w. cbn [files]. by rewrite lookup_delete_eq.
Defined.

(** A run that passes the two start-up checks returns normally; it prints
    either the line "no files" and touches nothing, or the count of the
    files found, one status line per file found, in the scanner's order,
    and the closing line (lines 167-175). *)
Theorem successful_run_report i w c b :
  parse_extensions (file_extensions_str i) ⊆ SUPPORTED_EXTENSIONS →
  files w !! copyright_file = Some (Text c b) →
  let found_files :=
    find_files_by_extensions w (directory_to_search i) (file_extensions_str i)
                             (Some (parse_excluded (excluded_dirs_str i))) in
  ∃ fs log,
    main i w = (Ret tt, World fs (tree w) (out w ++ log))
    ∧ (found_files = [] →
       fs = files w
       ∧ log = [NoFiles (file_extensions_str i) (directory_to_search i)])
    ∧ (found_files ≠ [] →
       ∃ statuses, log = Found (length found_files) :: statuses ++ [Complete]
                   ∧ subject <$> statuses = Some <$> found_files).
Proof.
  intros Hsup%supported_iff Hf found_files.
  destruct (main_ok i w Hsup c b Hf) as (log & Hrun & Hnone & Hsome).
  do 2 eexists. split; [exact Hrun|]. split; [|done].
  intros Hnil. split; [|by apply Hnone]. fold found_files. by rewrite Hnil.
Qed.

Lemma successful_run_report_witness :
  let i := Inputs (lit "proj") (lit "py") (lit "venv") in
  let found_files :=
    find_files_by_extensions sample_world (directory_to_search i)
      (file_extensions_str i) (Some (parse_excluded (excluded_dirs_str i))) in
  ∃ fs log,
    main i sample_world
    = (Ret tt, World fs (tree sample_world) (out sample_world ++ log))
    ∧ (found_files = [] →
       fs = files sample_world
       ∧ log = [NoFiles (file_extensions_str i) (directory_to_search i)])
    ∧ (found_files ≠ [] →
       ∃ statuses, log = Found (length found_files) :: statuses ++ [Complete]
                   ∧ subject <$> statuses = Some <$> found_files).
Proof.
  intros i. apply (successful_run_report i sample_world sample_notice false).
  - apply (bool_decide_unpack _). vm_compute. exact I.
  - vm_compute. reflexivity.
Defined.

Lemma batch_files_other copyright_text comment_map found_files fs q :
  q ∉ found_files →
  batch_files copyright_text comment_map found_files fs !! q = fs !! q.
Proof.
  intros Hq. rewrite batch_files_lookup.
  replace (filter (λ p, p = q) found_files) with (@nil str).
  - simpl. by destruct (fs !! q).
  - symmetry. induction found_files as [|p rest IH]; [done|].
    apply not_elem_of_cons in Hq as [Hne Hq].
    rewrite filter_cons_False by done. by apply IH.
Qed.

(** ** The answers to the prompts *)

(** An empty item in the list of extensions (an empty answer, a doubled or
    trailing comma, an item of white space only) ends the run like an
    unsupported extension: the empty extension is not supported (lines
    147-153). *)
Theorem blank_extension_item_aborts i w :
  (∃ item, item ∈ split comma (file_extensions_str i) ∧ strip item = []) →
  exit_status (main i w).1 = 1%Z ∧ files (main i w).2 = files w.
Proof.
  intros (item & Hitem & Hblank).
  assert (Hin : [] ∈ parse_extensions (file_extensions_str i)).
  { unfold parse_extensions. apply elem_of_list_to_set, list_elem_of_fmap.
    by exists item. }
  by rewrite (main_unsupported i w [] Hin no_extension_not_supported).
Qed.

Lemma blank_extension_item_aborts_witness :
  exit_status (main (Inputs (lit "proj") (lit "py, ") (lit "")) sample_world).1 = 1%Z
  ∧ files (main (Inputs (lit "proj") (lit "py, ") (lit "")) sample_world).2
    = files sample_world.
Proof.
  apply (blank_extension_item_aborts (Inputs (lit "proj") (lit "py, ") (lit ""))
           sample_world).
  exists (lit " "). split; [|vm_compute; reflexivity].
  apply (bool_decide_unpack _). vm_compute. exact I.
Defined.

Lemma split_without_sep sep s : sep ∉ s → split sep s = [s].
Proof.
  induction s as [|c s IH]; [done|]. rewrite not_elem_of_cons. intros [Hc Hs].
  simpl. destruct (N.eqb_spec c sep); [congruence|]. by rewrite IH.
Qed.

Lemma lstrip_blank s : Forall (λ c, isspace c = true) s → lstrip s = [].
Proof. induction 1 as [|c s Hc _ IH]; [done|]. simpl. by rewrite Hc. Qed.

(** An answer of white space only to the prompt for excluded directories
    excludes nothing; unlike for the extensions, empty items are dropped
    (line 144). *)
Theorem blank_exclusion_excludes_nothing s :
  Forall (λ c, isspace c = true) s → parse_excluded s = ∅.
Proof.
  intros Hs. unfold parse_excluded.
  assert (Hcomma : comma ∉ s).
  { intros Hin. rewrite Forall_forall in Hs. by apply Hs in Hin. }
  rewrite split_without_sep by done. rewrite fmap_cons.
  unfold strip at 1. rewrite lstrip_blank by done. simpl rstrip.
  by rewrite filter_cons_False by (intros H; by apply H).
Qed.

Lemma blank_exclusion_excludes_nothing_witness : parse_excluded (lit "   ") = ∅.
Proof.
  apply (blank_exclusion_excludes_nothing (lit "   ")).
  repeat constructor.
Defined.

(** ** The lines of the notice *)

Lemma lines_of_lines ls :
  Forall (λ l, nl ∉ l) ls →
  lines_of (concat ((λ l, l ++ [nl]) <$> ls)) = (λ l, l ++ [nl]) <$> ls.
Proof.
  induction 1 as [|l ls Hl _ IH]; [done|].
  rewrite !fmap_cons. simpl concat. rewrite <- app_assoc. simpl.
  by rewrite lines_of_line, IH.
Qed.

Lemma rstrip_nonempty s c : c ∈ s → isspace c = false → rstrip s ≠ [].
Proof.
  intros Hin Hc Hr. destruct (rstrip_spec s) as (ws & Hs & Hws & _).
  rewrite Hr in Hs. simpl in Hs. subst ws.
  rewrite forallb_forall in Hws. apply list_elem_of_In, Hws in Hin. congruence.
Qed.

Lemma rstrip_ends s : rstrip s ≠ [] → ends_nonspace (rstrip s) = true.
Proof.
  intros Hne. destruct (rstrip_spec s) as (_ & _ & _ & Hlast).
  unfold ends_nonspace. destruct (last (rstrip s)) as [c|] eqn:Hl.
  - by rewrite (Hlast c).
  - by apply last_None in Hl.
Qed.

Lemma ends_nonspace_elem s : ends_nonspace s = true → ∃ c, c ∈ s ∧ isspace c = false.
Proof.
  unfold ends_nonspace. destruct (last s) as [c|] eqn:Hl; [|done].
  intros Hc%negb_true_iff. exists c. split; [|done].
  apply last_Some in Hl as [l' ->]. apply elem_of_app. right. by left.
Qed.

Lemma rstrip_keeps_prefix s rest :
  ends_nonspace s = true → ∃ r, rstrip (s ++ rest) = s ++ r.
Proof.
  unfold ends_nonspace. destruct (last s) as [c|] eqn:Hl; [|done].
  intros Hc%negb_true_iff. apply last_Some in Hl as [m ->].
  destruct (rstrip_cons_nonspace c rest Hc) as [r Hr].
  exists r. rewrite <- !app_assoc. simpl.
  rewrite rstrip_app by (by rewrite Hr). by rewrite Hr.
Qed.

Lemma COMMENT_MAP_markers extension s e :
  COMMENT_MAP !! extension = Some (s, e) →
  ends_nonspace s = true ∧ (e = [] ∨ ends_nonspace (lit " " ++ e) = true).
Proof.
  intros H.
  assert (Hall : map_Forall
            (λ _ se, ends_nonspace se.1 = true
                     ∧ (se.2 = [] ∨ ends_nonspace (lit " " ++ se.2) = true))
            COMMENT_MAP).
  { apply (bool_decide_unpack _). vm_compute. exact I. }
  exact (Hall _ _ H).
Qed.

(** For every style of the table and every notice text without carriage
    return, the formatted notice is read back as the entries of [notice],
    one per line: as many lines as the stripped notice text has, and two
    more for a block comment; every line has text and none ends in white
    space (lines 53-63). *)
Theorem formatted_notice_lines extension s e copyright_text :
  COMMENT_MAP !! extension = Some (s, e) →
  cr ∉ copyright_text →
  readlines (formatted_notice s e copyright_text)
  = (λ l, l ++ [nl]) <$> notice s e copyright_text
  ∧ length (notice s e copyright_text)
    = (length (copyright_lines copyright_text) + if bool_decide (e = []) then 0 else 2)%nat
  ∧ Forall (λ l, ends_nonspace l = true) (notice s e copyright_text).
Proof.
  intros Hs Hcr. destruct (COMMENT_MAP_no_nl _ _ _ Hs) as [Hsn Hen].
  destruct (COMMENT_MAP_no_cr _ _ _ Hs) as [Hsc Hec].
  destruct (COMMENT_MAP_markers _ _ _ Hs) as [Hse Hee].
  split_and!.
  - rewrite readlines_id by by apply formatted_notice_no_cr.
    unfold formatted_notice. rewrite join_nl by apply notice_nonempty.
    apply lines_of_lines. by apply notice_no_nl.
  - unfold notice. case_bool_decide as He; simpl negb; cbv iota.
    + rewrite length_fmap. lia.
    + rewrite !length_app, length_fmap. simpl. lia.
  - unfold notice. case_bool_decide as He; simpl negb; cbv iota.
    + apply Forall_fmap, Forall_forall. intros l _. cbv beta.
      apply rstrip_ends. destruct (ends_nonspace_elem s Hse) as (c & Hc & Hsp).
      apply (rstrip_nonempty _ c); [|done]. apply elem_of_app. by left.
    + rewrite !Forall_app. split_and!.
      * by repeat constructor.
      * apply Forall_fmap, Forall_forall. intros l _. cbv beta.
        apply rstrip_ends. apply (rstrip_nonempty _ 42); [|done].
        apply elem_of_app. left. right. by left.
      * repeat constructor. by destruct Hee.
Qed.

Lemma formatted_notice_lines_witness :
  readlines (formatted_notice (lit "<!--") (lit " -->") sample_notice)
  = (λ l, l ++ [nl]) <$> notice (lit "<!--") (lit " -->") sample_notice.
Proof.
  apply (formatted_notice_lines (lit "html") (lit "<!--") (lit " -->") sample_notice).
  - vm_compute. reflexivity.
  - apply (bool_decide_unpack _). vm_compute. exact I.
Defined.

Lemma formatted_notice_prefix extension s e copyright_text :
  COMMENT_MAP !! extension = Some (s, e) →
  ∃ rest, formatted_notice s e copyright_text = s ++ rest.
Proof.
  intros Hs. destruct (COMMENT_MAP_markers _ _ _ Hs) as [Hse _].
  unfold formatted_notice, notice. case_bool_decide as He; simpl negb; cbv iota.
  - unfold copyright_lines. pose proof (split_nonempty nl (strip copyright_text)) as Hne.
    destruct (split nl (strip copyright_text)) as [|l0 ls]; [done|].
    rewrite fmap_cons.
    destruct (rstrip_keeps_prefix s (lit " " ++ l0) Hse) as [r Hr]. rewrite Hr.
    destruct ls as [|l1 ls].
    + exists (r ++ [nl]). simpl. by rewrite <- app_assoc.
    + eexists. rewrite fmap_cons.
      change (join [nl] ((s ++ r) :: ?x :: ?y)) with ((s ++ r) ++ [nl] ++ join [nl] (x :: y)).
      rewrite <- !app_assoc. reflexivity.
  - change ([s] ++ ?X) with (s :: X).
    destruct (((λ line, rstrip (lit " * " ++ line)) <$> copyright_lines copyright_text)
              ++ [lit " " ++ e]) as [|x xs] eqn:E.
    + by apply app_eq_nil in E as [_ ?].
    + eexists. change (join [nl] (s :: x :: xs)) with (s ++ [nl] ++ join [nl] (x :: xs)).
      rewrite <- app_assoc. reflexivity.
Qed.

(** After an insertion into a file without special first line the file
    begins with the start marker of its style (lines 73-86 and 53-63). *)
Theorem notice_begins_the_file file_path copyright_text w s e c :
  COMMENT_MAP !! extension_of file_path = Some (s, e) →
  files w !! file_path = Some (Text c false) →
  already_has_notice (readlines c) = false →
  (special_first_line (extension_of file_path) (readlines c)).1 = [] →
  ∃ rest,
    files (prepend_copyright file_path copyright_text COMMENT_MAP w).2 !! file_path
    = Some (Text (s ++ rest) false).
Proof.
  intros Hs Hf Ha Hsp.
  rewrite (run_insert _ _ _ w s e c) by done. cbn [snd files].
  rewrite lookup_insert_eq. unfold rewritten.
  destruct (special_first_line _ _) as [first_line rest]. simpl in Hsp. subst.
  destruct (formatted_notice_prefix _ s e copyright_text Hs) as [r ->].
  eexists. simpl. by rewrite <- app_assoc.
Qed.

Lemma notice_begins_the_file_witness :
  ∃ rest,
    files (prepend_copyright (lit "proj/src/app.js") sample_notice COMMENT_MAP
                             sample_world).2 !! lit "proj/src/app.js"
    = Some (Text (lit "/*" ++ rest) false).
Proof.
  apply (notice_begins_the_file (lit "proj/src/app.js") sample_notice sample_world
           (lit "/*") (lit " */") (lit "let x = 1;")).
  - vm_compute. reflexivity.
  - vm_compute. reflexivity.
  - vm_compute. reflexivity.
  - vm_compute. reflexivity.
Defined.

(** ** Running the tool again *)

Section Again.

Variable copyright_text : str.
Hypothesis text_no_cr : cr ∉ copyright_text.
Hypothesis marked :
  existsb (contains marker) (take 18 (copyright_lines copyright_text)) = true.

Lemma file_step_idem file_path st :
  file_step file_path copyright_text COMMENT_MAP
            (file_step file_path copyright_text COMMENT_MAP st)
  = file_step file_path copyright_text COMMENT_MAP st.
Proof.
  unfold file_step.
  destruct (COMMENT_MAP !! extension_of file_path) as [[s e]|] eqn:Hs; [|done].
  destruct (COMMENT_MAP_no_nl _ _ _ Hs) as [Hsn Hen].
  destruct (COMMENT_MAP_no_cr _ _ _ Hs) as [Hsc Hec].
  destruct st as [| |c b]; [done | done |].
  destruct (already_has_notice (readlines c)) eqn:Ha; [by rewrite Ha|].
  destruct b; [done|].
  by rewrite rewritten_has_notice.
Qed.

Lemma file_step_iter file_path k st :
  Nat.iter (S k) (file_step file_path copyright_text COMMENT_MAP) st
  = file_step file_path copyright_text COMMENT_MAP st.
Proof.
  induction k as [|k IH]; [done|].
  change (Nat.iter (S (S k)) ?f ?x) with (f (Nat.iter (S k) f x)).
  by rewrite IH, file_step_idem.
Qed.

Lemma batch_files_twice found_files fs :
  batch_files copyright_text COMMENT_MAP found_files
              (batch_files copyright_text COMMENT_MAP found_files fs)
  = batch_files copyright_text COMMENT_MAP found_files fs.
Proof.
  apply map_eq. intros q. rewrite !batch_files_lookup.
  destruct (fs !! q) as [st|]; [|done]. simpl. f_equal.
  destruct (length (filter (λ p, p = q) found_files)) as [|k]; [done|].
  by rewrite !file_step_iter, file_step_idem.
Qed.

End Again.

Lemma find_files_by_tree w w' root_dir extensions_str excluded_dirs :
  tree w' = tree w →
  find_files_by_extensions w' root_dir extensions_str excluded_dirs
  = find_files_by_extensions w root_dir extensions_str excluded_dirs.
Proof. intros H. unfold find_files_by_extensions, isdir. by rewrite H. Qed.

Lemma copyright_file_not_found w root_dir extensions_str excluded_dirs :
  parse_extensions extensions_str ⊆ SUPPORTED_EXTENSIONS →
  (∀ t, tree w !! root_dir = Some t → entries_ok t = true) →
  copyright_file ∉ find_files_by_extensions w root_dir extensions_str
                                            (Some excluded_dirs).
Proof.
  intros Hsup Hok Hin.
  destruct (tree w !! root_dir) as [t|] eqn:Ht.
  - destruct (found_file_supported w root_dir extensions_str excluded_dirs t
                copyright_file Hsup Ht (Hok t eq_refl) Hin) as [Hext _].
    revert Hext. apply (bool_decide_unpack _). vm_compute. exact I.
  - unfold find_files_by_extensions, isdir in Hin. rewrite Ht in Hin.
    by apply elem_of_nil in Hin.
Qed.

(** Running the tool a second time with the same answers changes no file,
    provided the notice text, as the run reads it from its file, has the
    marker "Copyright (c)" in one of its first 18 lines and the names in
    the tree are well formed: every file the first run has rewritten is
    skipped by the second (lines 138-175). *)
Theorem second_run_of_the_tool_changes_nothing i w :
  (∀ t, tree w !! directory_to_search i = Some t → entries_ok t = true) →
  (∀ c b, files w !! copyright_file = Some (Text c b) →
          existsb (contains marker)
                  (take 18 (copyright_lines (universal_newlines c))) = true) →
  files (main i (main i w).2).2 = files (main i w).2
  ∧ tree (main i (main i w).2).2 = tree w.
Proof.
  intros Hok Hmark.
  destruct (main_cases i w)
    as [(m1 & m2 & Hrun & Hsup) | [(m & Hrun & _ & Hsup & Hf & _)
                                   | (c & b & log & Hrun & Hf & Hsup)]];
    rewrite Hrun; cbn [snd].
  - destruct (main_cases i (World (files w) (tree w) (out w ++ [m1; m2])))
      as [(? & ? & Hrun' & _) | [(? & Hrun' & _) | (? & ? & ? & _ & _ & Hsup')]];
      [by rewrite Hrun' | by rewrite Hrun' | done].
  - destruct (main_cases i (World (files w) (tree w) (out w ++ [m])))
      as [(? & ? & Hrun' & _) | [(? & Hrun' & _) | (c' & b' & ? & _ & Hf' & _)]];
      [by rewrite Hrun' | by rewrite Hrun' |].
    by destruct (Hf c' b').
  - set (found := find_files_by_extensions w (directory_to_search i)
                    (file_extensions_str i)
                    (Some (parse_excluded (excluded_dirs_str i)))) in *.
    set (w1 := World (batch_files (universal_newlines c) COMMENT_MAP found (files w))
                     (tree w) (out w ++ log)).
    assert (Hf1 : files w1 !! copyright_file = Some (Text c b)).
    { unfold w1. cbn [files]. rewrite batch_files_other; [done|].
      by apply copyright_file_not_found. }
    destruct (main_cases i w1)
      as [(? & ? & _ & Hsup') | [(? & _ & _ & _ & Hf' & _)
                                 | (c' & b' & log' & Hrun' & Hf' & _)]].
    + done.
    + by destruct (Hf' c b).
    + rewrite Hrun'. cbn [snd files tree]. split; [|done].
      rewrite Hf1 in Hf'. injection Hf' as <- <-.
      rewrite (find_files_by_tree w w1) by done. fold found.
      unfold w1. cbn [files].
      apply batch_files_twice; [apply universal_newlines_no_cr | by eapply Hmark].
Qed.

Lemma second_run_of_the_tool_changes_nothing_witness :
  let i := Inputs (lit "proj") (lit "py, js, sh") (lit "venv") in
  files (main i (main i sample_world).2).2 = files (main i sample_world).2
  ∧ tree (main i (main i sample_world).2).2 = tree sample_world.
Proof.
  intros i. apply (second_run_of_the_tool_changes_nothing i sample_world).
  - intros t Ht. vm_compute in Ht. injection Ht as <-. vm_compute. reflexivity.
  - intros c b Hc. vm_compute in Hc. injection Hc as <- _. vm_compute. reflexivity.
Defined.

Lemma prepend_copyright_frame_witness :
  files (prepend_copyright (lit "proj/locked.py") sample_notice COMMENT_MAP
                           sample_world).2
    !! lit "proj/locked.py"
  = Some Denied.
Proof.
  apply (prepend_copyright_frame (lit "proj/locked.py") sample_notice COMMENT_MAP
           sample_world).
  - vm_compute. reflexivity.
  - discriminate.
Defined.

(** ** The status line and the file *)


(** ** The reach of the duplicate guard *)

Lemma lines_of_app pre post :
  last pre = Some nl → lines_of (pre ++ post) = lines_of pre ++ lines_of post.
Proof.
  induction pre as [|c pre IH]; [done|]. intros Hlast.
  destruct pre as [|c' pre].
  - injection Hlast as ->. done.
  - change (last (c :: c' :: pre)) with (last (c' :: pre)) in Hlast.
    specialize (IH Hlast). simpl in *. rewrite IH.
    destruct (c =? nl); [done|].
    destruct (c' =? nl); [done|]. by destruct (lines_of pre).
Qed.

(** The guard looks at 20 lines and no further: once a text has 20
    complete lines, nothing that follows them, a notice included, makes a
    difference to the guard (line 68). *)
Theorem guard_ignores_text_after_line_20 pre post :
  last pre = Some nl → (20 ≤ length (readlines pre))%nat →
  already_has_notice (readlines (pre ++ post)) = already_has_notice (readlines pre).
Proof.
  intros Hlast Hlen. unfold already_has_notice, readlines in *.
  destruct (universal_newlines_app pre post Hlast) as [-> Hlast'].
  rewrite lines_of_app by done. by rewrite take_app_le.
Qed.

Lemma guard_ignores_text_after_line_20_witness :
  already_has_notice
    (readlines (concat (replicate 20 (lit "x" ++ [nl])) ++ lit "# Copyright (c) 2024"))
  = already_has_notice (readlines (concat (replicate 20 (lit "x" ++ [nl])))).
Proof.
  apply (guard_ignores_text_after_line_20 (concat (replicate 20 (lit "x" ++ [nl])))
           (lit "# Copyright (c) 2024")).
  - vm_compute. reflexivity.
  - vm_compute. lia.
Defined.

(** ** Names that begin with a dot *)

(** A name that consists of a dot and a text without further dot has no
    extension for the scanner: no accepted request matches a file named
    ".py" or ".gitignore" (lines 131-132, with the check of lines
    147-153). *)
Theorem dotfile_is_never_matched extensions n :
  extensions ⊆ SUPPORTED_EXTENSIONS → dot ∉ n → slash ∉ n →
  file_ext (dot :: n) = [] ∧ ¬ matches extensions (dot :: n).
Proof.
  intros Hsup Hdot Hslash.
  assert (Hext : file_ext (dot :: n) = []).
  { unfold file_ext, Path.splitext.
    assert (Hs : rfind slash (dot :: n) = (-1)%Z).
    { apply rfind_notin. rewrite not_elem_of_cons. split; [done | done]. }
    assert (Hd : rfind dot (dot :: n) = 0%Z).
    { cbn [rfind]. rewrite (rfind_notin dot n Hdot). reflexivity. }
    rewrite Hs, Hd. done. }
  split; [done|]. intros [[Hd _] | Hm].
  - by apply dockerfile_not_supported, Hsup.
  - fold (file_ext (dot :: n)) in Hm. rewrite Hext in Hm.
    by apply no_extension_not_supported, Hsup.
Qed.

Lemma dotfile_is_never_matched_witness :
  file_ext (dot :: lit "py") = []
  ∧ ¬ matches (parse_extensions (lit "py")) (dot :: lit "py").
Proof.
  apply (dotfile_is_never_matched (parse_extensions (lit "py")) (lit "py")).
  - apply (bool_decide_unpack _). vm_compute. exact I.
  - apply (bool_decide_unpack _). vm_compute. exact I.
  - apply (bool_decide_unpack _). vm_compute. exact I.
Defined.

(** ** No file is listed twice *)

Section NoDuplicates.

Variables (extensions excluded_dirs : gset str).

Local Abbreviation body := (scan_body extensions excluded_dirs).

Lemma foldl_acc {B} (f : list str → B → list str) l acc :
  (∀ a b, b ∈ l → f a b = a ++ f [] b) →
  foldl f acc l = acc ++ foldl f [] l.
Proof.
  revert acc. induction l as [|b l IH]; intros acc Hf; simpl; [by rewrite app_nil_r|].
  assert (Hl : ∀ a b', b' ∈ l → f a b' = a ++ f [] b').
  { intros a b' Hb'. apply Hf. by right. }
  rewrite (IH (f acc b)), (IH (f [] b)) by done.
  rewrite (Hf acc b) by (by left). by rewrite <- app_assoc.
Qed.

Lemma scan_filenames_acc dirpath filenames acc :
  scan_filenames extensions dirpath filenames acc
  = acc ++ scan_filenames extensions dirpath filenames [].
Proof.
  unfold scan_filenames. apply foldl_acc. intros a f _.
  destruct (bool_decide (lit "dockerfile" ∈ extensions) && eqb f (lit "Dockerfile"));
    [done|].
  destruct (bool_decide (lstrip_dots (Path.splitext f).2 ∈ extensions));
    [done | by rewrite app_nil_r].
Qed.

Lemma walk_acc t top acc : walk body top t acc = acc ++ walk body top t [].
Proof.
  revert top acc. induction t as [n|n|n es IH] using node_ind; intros top acc;
    [by rewrite app_nil_r.. |].
  rewrite !walk_Dir. cbn [scan_body fst snd].
  rewrite foldl_acc, (foldl_acc _ _ (scan_filenames _ _ _ [])).
  - by rewrite scan_filenames_acc, <- app_assoc.
  - intros a d _. destruct (child es d) as [[| |d' es']|] eqn:Hch;
      [by rewrite app_nil_r.. | | by rewrite app_nil_r].
    apply child_Some in Hch as [Hc _]. rewrite Forall_forall in IH. by apply IH.
  - intros a d _. destruct (child es d) as [[| |d' es']|] eqn:Hch;
      [by rewrite app_nil_r.. | | by rewrite app_nil_r].
    apply child_Some in Hch as [Hc _]. rewrite Forall_forall in IH. by apply IH.
Qed.

Lemma scan_filenames_NoDup dirpath filenames :
  NoDup filenames → Forall (λ f, name_ok f = true) filenames →
  NoDup (scan_filenames extensions dirpath filenames []).
Proof.
  induction filenames as [|f fs IH] using rev_ind; intros Hnd Hok; [constructor|].
  apply NoDup_app in Hnd as (Hfs & Hdis & _).
  apply Forall_app in Hok as [Hok Hf]. inversion Hf as [|? ? Hfok _]; subst.
  unfold scan_filenames in *. rewrite foldl_snoc.
  assert (Hnew : Path.join dirpath f
                 ∉ foldl (λ matching_files filename,
                     if bool_decide (lit "dockerfile" ∈ extensions)
                        && eqb filename (lit "Dockerfile")
                     then matching_files ++ [Path.join dirpath filename]
                     else if bool_decide (lstrip_dots (Path.splitext filename).2
                                          ∈ extensions)
                          then matching_files ++ [Path.join dirpath filename]
                          else matching_files) [] fs).
  { intros [Hin | (g & Hg & _ & Heq)]%scan_filenames_spec; [by apply elem_of_nil in Hin|].
    rewrite Forall_forall in Hok.
    rewrite !join_name in Heq by (done || by apply Hok).
    apply app_inv_head in Heq as ->. apply (Hdis g Hg). by left. }
  destruct (bool_decide (lit "dockerfile" ∈ extensions) && eqb f (lit "Dockerfile")).
  - apply NoDup_app. split_and!; [by apply IH | | apply NoDup_singleton].
    intros x Hx [->|?%elem_of_nil]%elem_of_cons; done.
  - destruct (bool_decide (lstrip_dots (Path.splitext f).2 ∈ extensions));
      [|by apply IH].
    apply NoDup_app. split_and!; [by apply IH | | apply NoDup_singleton].
    intros x Hx [->|?%elem_of_nil]%elem_of_cons; done.
Qed.

End NoDuplicates.

Section NoDuplicatesWalk.

Variables (extensions excluded_dirs : gset str).

Local Abbreviation body := (scan_body extensions excluded_dirs).

Lemma names_unique_unfold n es :
  names_unique (Dir n es) = true →
  NoDup (node_name <$> es) ∧ ∀ c, c ∈ es → names_unique c = true.
Proof.
  simpl. rewrite andb_true_iff, bool_decide_eq_true, forallb_forall.
  intros [Hnd Hall]. split; [done|]. intros c Hc. by apply Hall, list_elem_of_In.
Qed.

Lemma listing_NoDup es :
  NoDup (node_name <$> es) → NoDup (dirs_of es) ∧ NoDup (nondirs_of es).
Proof.
  intros Hnd. split; (eapply sublist_NoDup; [exact Hnd|]);
    apply fmap_sublist, sublist_filter.
Qed.

(** The descent into the sub-directories adds no path twice. *)
Lemma descent_NoDup n es top :
  entries_ok (Dir n es) = true →
  (∀ c, c ∈ es → names_unique c = true) →
  (∀ c, c ∈ es → entries_ok c = true → names_unique c = true →
        ∀ top, NoDup (walk body top c [])) →
  ∀ l acc,
    NoDup l → (∀ d, d ∈ l → name_ok d = true) → NoDup acc →
    (∀ p, p ∈ acc →
       (∃ f, p = Path.join top f ∧ name_ok f = true)
       ∨ (∃ d' ds f, (d' ∉ l)
                     ∧ p = Path.join (chain_path top (d' :: ds)) f
                     ∧ Forall (λ d, name_ok d = true) (d' :: ds)
                     ∧ name_ok f = true)) →
    NoDup (foldl (λ s dirname,
                    match child es dirname with
                    | Some (Dir _ _ as c) => walk body (Path.join top dirname) c s
                    | _ => s
                    end) acc l).
Proof.
  intros Hok Hun Hsub l. induction l as [|d l IH]; intros acc Hl Hnames Hacc Hinv;
    [done|].
  apply NoDup_cons in Hl as [Hd Hl]. cbn [foldl].
  assert (Hweak : ∀ p, p ∈ acc →
            (∃ f, p = Path.join top f ∧ name_ok f = true)
            ∨ (∃ d' ds f, (d' ∉ l)
                          ∧ p = Path.join (chain_path top (d' :: ds)) f
                          ∧ Forall (λ d, name_ok d = true) (d' :: ds)
                          ∧ name_ok f = true)).
  { intros p Hp. destruct (Hinv p Hp) as [?|(d' & ds & f & Hd' & ?)]; [by left|].
    right. exists d', ds, f. split; [|done]. by apply not_elem_of_cons in Hd' as [_ ?]. }
  assert (Hnames' : ∀ d0, d0 ∈ l → name_ok d0 = true).
  { intros d0 Hd0. apply Hnames. by right. }
  destruct (child es d) as [[| |d' es']|] eqn:Hch; [by apply IH.. | | by apply IH].
  apply child_Some in Hch as [Hc Hname]. simpl in Hname. subst d'.
  pose proof (entries_ok_elem n es _ Hok Hc) as [Hdn Hde]%names_ok_unfold.
  simpl in Hdn.
  assert (Hnew : ∀ p, p ∈ walk body (Path.join top d) (Dir d es') [] →
            ∃ ds f, p = Path.join (chain_path top (d :: ds)) f
                    ∧ Forall (λ d, name_ok d = true) (d :: ds)
                    ∧ name_ok f = true).
  { intros p Hp.
    apply (walk_sound extensions excluded_dirs (Path.join top d) (Dir d es') Hde [] [])
      in Hp; [| constructor | constructor | by intros q ?%elem_of_nil].
    destruct Hp as (ds & f & -> & _ & Hds & Hf). exists ds, f.
    split_and!; [done | by constructor | done]. }
  rewrite walk_acc. apply IH; [done | done | |].
  - apply NoDup_app. split_and!; [done | | by apply Hsub; auto].
    intros p Hp Hp'. destruct (Hnew p Hp') as (ds & f & Heq & Hds & Hf).
    destruct (Hinv p Hp) as [(g & Hg & Hgok) | (d' & ds' & g & Hd' & Hg & Hds' & Hgok)].
    + rewrite Hg in Heq. change (Path.join top g) with (Path.join (chain_path top []) g) in Heq.
      by apply file_path_inj in Heq as [? _].
    + rewrite Hg in Heq. apply file_path_inj in Heq as [[= -> _] _]; [|done..].
      apply Hd'. by left.
  - intros p [Hp | Hp]%elem_of_app; [by apply Hweak|].
    right. destruct (Hnew p Hp) as (ds & f & Heq & Hds & Hf). by exists d, ds, f.
Qed.

Lemma walk_NoDup t :
  entries_ok t = true → names_unique t = true → ∀ top, NoDup (walk body top t []).
Proof.
  induction t as [n|n|n es IH] using node_ind; [constructor.. |].
  intros Hok Hun top. apply names_unique_unfold in Hun as [Hnd Hun].
  destruct (listing_NoDup es Hnd) as [Hdirs Hfiles].
  assert (Hfok : Forall (λ f, name_ok f = true) (nondirs_of es)).
  { apply Forall_forall. intros f (c & Hc & _ & <-)%elem_of_nondirs_of.
    by apply (entries_ok_elem n es _ Hok), names_ok_unfold in Hc as [? _]. }
  rewrite walk_Dir. cbn [scan_body fst snd].
  apply (descent_NoDup n es top Hok Hun).
  - intros c Hc. rewrite Forall_forall in IH. by apply IH.
  - by apply NoDup_filter.
  - intros d [_ (c & Hc & _ & <-)%elem_of_dirs_of]%list_elem_of_filter.
    by apply (entries_ok_elem n es _ Hok), names_ok_unfold in Hc as [? _].
  - by apply scan_filenames_NoDup.
  - intros p [Hp | (f & Hf & _ & ->)]%scan_filenames_spec; [by apply elem_of_nil in Hp|].
    left. exists f. split; [done|]. rewrite Forall_forall in Hfok. by apply Hfok.
Qed.

End NoDuplicatesWalk.

(** When the names below the root are well formed and no directory holds
    a name twice, the scanner lists no path twice: no file is processed
    twice in a run (lines 119-135). *)
Theorem scanner_lists_no_file_twice w root_dir extensions_str excluded_dirs t :
  tree w !! root_dir = Some t → entries_ok t = true → names_unique t = true →
  NoDup (find_files_by_extensions w root_dir extensions_str excluded_dirs).
Proof.
  intros Ht Hok Hun. unfold find_files_by_extensions. rewrite Ht.
  destruct (negb (isdir w root_dir)); [constructor|]. by apply walk_NoDup.
Qed.

Lemma scanner_lists_no_file_twice_witness :
  NoDup (find_files_by_extensions sample_world (lit "proj") (lit "py, js")
                                  (Some {[lit "venv"]})).
Proof.
  apply (scanner_lists_no_file_twice sample_world (lit "proj") (lit "py, js")
           (Some {[lit "venv"]}) sample_tree).
  - vm_compute. reflexivity.
  - vm_compute. reflexivity.
  - vm_compute. reflexivity.
Defined.

(** ** Further samples *)

Lemma exit_status_is_settled_at_startup_witness :
  exit_status (main (Inputs (lit "proj") (lit "py") (lit "venv")) sample_world).1 = 0%Z.
Proof.
  apply (proj2 (proj1 (exit_status_is_settled_at_startup
                         (Inputs (lit "proj") (lit "py") (lit "venv")) sample_world))).
  split.
  - apply (bool_decide_unpack _). vm_compute. exact I.
  - exists sample_notice, false. vm_compute. reflexivity.
Defined.

